(** * interactive-resume: callout placement, leader line and proximity machine

    A shallow embedding of the geometry and interaction logic of [game.js]
    (the PCB Lab resume), with the properties of its specification.

    Number model.  JavaScript numbers are embedded as exact rationals [Q];
    rounding of IEEE doubles, [NaN] and the infinities are not represented.
    Two places of the source leave the rationals and are embedded as follows.

    - [Math.hypot(a, b)] is carried by its square [a*a + b*b] ([hypot2]).
      The source only ever compares a hypot with another hypot or with a
      non-negative constant, and squaring is strictly increasing on the
      non-negative numbers, so every such comparison is the comparison of the
      squares.  The sentinels [Infinity] (initial [minDist]) and [-1] (initial
      [bestDist]) are the [None] of an [option Q].  The statements about
      nearest and farthest are also given for the distances themselves, as
      real numbers ([Distance.euclid]).
    - A division whose divisor is zero yields [Infinity] or [NaN] in the
      source; the embedding of the leader line makes it visible as [None]
      ([jsdiv]).

    The elements of [index.html] that the source looks up by id are taken to
    be present (the source dereferences most of them unguarded). *)

From Stdlib Require Import Reals Qreals.
From Stdlib Require Import QArith Qminmax Qround Qabs Lqa Lia List Bool.
From stdpp Require Import gmap strings.
Import ListNotations.

Local Open Scope Q_scope.

(** ** Numbers *)

Module Num.

Definition Qltb (a b : Q) : bool := negb (Qle_bool b a).

Definition hypot2 (a b : Q) : Q := a * a + b * b.

(** [v || d] on numbers: the default replaces a zero. *)
Definition or_default (v d : Q) : Q := if Qeq_bool v 0 then d else v.

Definition sq (r : Q) : Q := r * r.

End Num.
Import Num.

(** ** Callout placement ([positionCallout]) *)

Module Placement.

Inductive Quadrant := TopRight | TopLeft | BottomRight | BottomLeft.

Record Candidate := mkCandidate { name : Quadrant; left : Q; top : Q }.

Definition CALLOUT_OFFSET : Q := 36.
Definition CALLOUT_VIEWPORT_PAD : Q := 12.

Section Engine.

(** [OFF] and [PAD] are the two constants of the source; the engine is
    stated for any values and instantiated below. *)
Variables OFF PAD : Q.
(** station and player on screen, callout size, game-area size *)
Variables sx sy px py cw ch gaW gaH : Q.

Definition candidates : list Candidate :=
  [ mkCandidate TopRight    (sx + OFF)      (sy - ch - OFF);
    mkCandidate TopLeft     (sx - cw - OFF) (sy - ch - OFF);
    mkCandidate BottomRight (sx + OFF)      (sy + OFF);
    mkCandidate BottomLeft  (sx - cw - OFF) (sy + OFF) ].

Definition fitsb (c : Candidate) : bool :=
  Qle_bool PAD (left c) && Qle_bool PAD (top c) &&
  Qle_bool (left c + cw) (gaW - PAD) &&
  Qle_bool (top c + ch) (gaH - PAD).

Definition fits : list Candidate := List.filter fitsb candidates.

Definition pool : list Candidate :=
  match fits with [] => candidates | _ :: _ => fits end.

(** squared distance of the candidate's centre to the player *)
Definition centre_dist2 (c : Candidate) : Q :=
  hypot2 (left c + cw / 2 - px) (top c + ch / 2 - py).

(** [d > bestDist], where [None] is the initial [-1] *)
Definition beats (d : Q) (bestDist : option Q) : bool :=
  match bestDist with None => true | Some b => Qltb b d end.

(** one iteration of [for (const c of pool)] on [(best, bestDist)] *)
Definition select_step (acc : Candidate * option Q) (c : Candidate)
  : Candidate * option Q :=
  let d := centre_dist2 c in
  if beats d (snd acc) then (c, Some d) else acc.

Definition select_from (first : Candidate) (l : list Candidate) : Candidate :=
  fst (fold_left select_step l (first, None)).

(** [pool[0]] is an element because [pool] is never empty; the default
    stands for JavaScript's [undefined] and is never reached. *)
Definition best : Candidate :=
  select_from (hd (mkCandidate TopRight 0 0) pool) pool.

Definition clamp (v hi : Q) : Q := Qmax PAD (Qmin v hi).

Definition clampedLeft : Q := clamp (left best) (gaW - cw - PAD).
Definition clampedTop : Q := clamp (top best) (gaH - ch - PAD).

End Engine.

(** The origin written to the callout's style, or [None] when there is no
    scene yet or the callout is hidden and the function returns early.
    [offsetWidth] and [offsetHeight] fall back to 220 and 160 when zero. *)
Definition positionCallout (activeScene hidden : bool)
    (sx sy px py offsetWidth offsetHeight gaW gaH : Q) : option (Q * Q) :=
  if negb activeScene then None else
  if hidden then None else
  let cw := or_default offsetWidth 220 in
  let ch := or_default offsetHeight 160 in
  Some (clampedLeft CALLOUT_OFFSET CALLOUT_VIEWPORT_PAD sx sy px py cw ch gaW gaH,
        clampedTop CALLOUT_OFFSET CALLOUT_VIEWPORT_PAD sx sy px py cw ch gaW gaH).

End Placement.

(** ** Leader line ([drawLeaderLine]) *)

Module Leader.

(** [a / b]; [None] stands for the [Infinity] or [NaN] of a zero divisor. *)
Definition jsdiv (a b : Q) : option Q :=
  if Qeq_bool b 0 then None else Some (a / b).

(** [Math.sign] *)
Definition sign (v : Q) : Q :=
  match v ?= 0 with Lt => -1 | Eq => 0 | Gt => 1 end.

(** The callout's bounding rectangle in game-area coordinates. *)
Record Rect := mkRect { cLeft : Q; cTop : Q; cRight : Q; cBottom : Q }.

Definition cCX (r : Rect) : Q := (cLeft r + cRight r) / 2.
Definition cCY (r : Rect) : Q := (cTop r + cBottom r) / 2.

(** Exit point [(ex, ey)] on the callout border. *)
Definition exit_point (r : Rect) (sx sy : Q) : option (Q * Q) :=
  let dx := sx - cCX r in
  let dy := sy - cCY r in
  if Qeq_bool (Qabs dx) 0 && Qeq_bool (Qabs dy) 0 then Some (cCX r, cTop r)
  else
    let hw := (cRight r - cLeft r) / 2 in
    let hh := (cBottom r - cTop r) / 2 in
    let absDx := Qabs dx in
    let absDy := Qabs dy in
    if Qltb (absDy * hw) (absDx * hh) then
      match jsdiv hw absDx with
      | Some t => Some (cCX r + sign dx * hw, cCY r + dy * t)
      | None => None
      end
    else
      match jsdiv hh absDy with
      | Some t => Some (cCX r + dx * t, cCY r + sign dy * hh)
      | None => None
      end.

Definition midX (ex sx : Q) : Q := ex + (sx - ex) * (1 # 2).

(** The four points of the polyline. *)
Definition polyline (ex ey sx sy : Q) : list (Q * Q) :=
  [ (ex, ey); (midX ex sx, ey); (midX ex sx, sy); (sx, sy) ].

(** [Math.hypot(a, 0)] and [Math.hypot(0, a)] are [|a|]. *)
Definition totalDist (ex ey sx sy : Q) : Q :=
  Qabs (midX ex sx - ex) + Qabs (sy - ey) + Qabs (sx - midX ex sx).

Inductive Segment := Seg1 | Seg2 | Seg3.

(** Observers of [pulse_dot]: which segment carries the dot, the distance
    travelled inside it and the segment's length. *)
Definition pulse_segment (ex ey sx sy pulseT : Q) : Segment * Q * Q :=
  let traveled := pulseT * totalDist ex ey sx sy in
  let seg1 := Qabs (midX ex sx - ex) in
  let seg2 := Qabs (sy - ey) in
  if Qle_bool traveled seg1 then (Seg1, traveled, seg1)
  else if Qle_bool traveled (seg1 + seg2) then (Seg2, traveled - seg1, seg2)
  else (Seg3, traveled - seg1 - seg2, Qabs (sx - midX ex sx)).

(** The fraction [within / (seg || 1)] that [pulse_dot] multiplies by. *)
Definition pulse_fraction (ex ey sx sy pulseT : Q) : option Q :=
  let '(_, within, seg) := pulse_segment ex ey sx sy pulseT in
  jsdiv within (or_default seg 1).

(** The pulse dot [(dotX, dotY)], branch by branch as in the source. *)
Definition pulse_dot (ex ey sx sy pulseT : Q) : option (Q * Q) :=
  let traveled := pulseT * totalDist ex ey sx sy in
  let seg1 := Qabs (midX ex sx - ex) in
  let seg2 := Qabs (sy - ey) in
  if Qle_bool traveled seg1 then
    match jsdiv traveled (or_default seg1 1) with
    | Some f => Some (ex + (midX ex sx - ex) * f, ey)
    | None => None
    end
  else if Qle_bool traveled (seg1 + seg2) then
    match jsdiv (traveled - seg1) (or_default seg2 1) with
    | Some f => Some (midX ex sx, ey + (sy - ey) * f)
    | None => None
    end
  else
    let rem := traveled - seg1 - seg2 in
    let seg3 := Qabs (sx - midX ex sx) in
    match jsdiv rem (or_default seg3 1) with
    | Some f => Some (midX ex sx + (sx - midX ex sx) * f, sy)
    | None => None
    end.

Inductive Drawn :=
| Cleared                                   (* [clearLeaderLine] *)
| Line (pts : list (Q * Q)) (dot : Q * Q)   (* polyline and pulse dot *)
| Undefined.                                (* some divisor was zero *)

(** What [drawLeaderLine] puts into [#leader-svg], for a scene and an svg
    element that exist; [r] is the callout's rectangle, [(sx, sy)] the
    station on screen. *)
Definition drawLeaderLine (hidden : bool) (r : Rect) (sx sy pulseT : Q) : Drawn :=
  if hidden then Cleared else
  match exit_point r sx sy with
  | None => Undefined
  | Some (ex, ey) =>
      match pulse_dot ex ey sx sy pulseT with
      | None => Undefined
      | Some d => Line (polyline ex ey sx sy) d
      end
  end.

End Leader.

(** ** Proximity tracker and interaction state machine *)

Module Machine.

Definition INTERACT_R : Q := 88.
Definition SIGNAL_LOST_R : Q := 180.
Definition CALLOUT_BULLET_PREVIEW : nat := 2.

Record StationDef := mkStation
  { id : string; x : Q; y : Q; color : Z; label : string }.

Definition NEON : Z := 0x00E5FF.
Definition NEON_G : Z := 0x3CFF7F.

Definition STATIONS : list StationDef :=
  [ mkStation "summary-software"      360  150 NEON     "CORE.SW";
    mkStation "summary-security"      840  150 NEON_G   "CORE.SEC";
    mkStation "core-skills-software"  140  300 NEON     "STACK.SW";
    mkStation "core-skills-security"  1060 300 NEON_G   "STACK.SEC";
    mkStation "experience-humana"     200  440 0xFF6B9D "EXP.HUMANA";
    mkStation "experience-paladin"    600  340 0xFF9F1C "EXP.PALADIN";
    mkStation "experience-ng-2023"    1000 440 NEON     "EXP.NG-23";
    mkStation "experience-ng-ia-2020" 600  540 0xAA7CFF "EXP.NG-IA";
    mkStation "experience-utah-dcfs"  200  600 0xFF6B9D "EXP.DCFS";
    mkStation "experience-earlier"    1000 600 0xAA7CFF "EXP.PRIOR";
    mkStation "education-certs"       380  760 0xFF9F1C "CREDENTIALS";
    mkStation "links"                 820  760 NEON_G   "I/O PORTS" ].

(** A section of [resume.json]. *)
Record Section_ := mkSection
  { sec_id : string; title : string; bullets : list string;
    link : option (string * string) }.

(** [content/resume.json] is data, not code; the scenarios below run on a
    store that holds one section for each station, as the comment above
    [STATIONS] asks for. *)
Definition sample_section (i : string) : Section_ :=
  mkSection i i ["first"; "second"; "third"] None.

Definition sample_sectionMap : gmap string Section_ :=
  list_to_map (map (fun s => (id s, sample_section (id s))) STATIONS).

(** The part of the page the functions below write. *)
Record Dom := mkDom
  { callout_hidden : bool;        (* class [hidden] of [#callout] *)
    callout_signal_lost : bool;   (* class [signal-lost] of [#callout] *)
    callout_label : string;
    callout_title : string;
    callout_bullets : list string;
    callout_signal : string;      (* text of [#callout-signal] *)
    sidebar : option (string * Section_);  (* what [updateSidebar] rendered *)
    leader_svg : bool }.          (* [#leader-svg] holds a line *)

Record State := mkState
  { calloutOpen : bool;
    calloutStationId : option string;
    lastAutoOpenedId : option string;
    nearestSceneStation : option StationDef;   (* [this._nearestSceneStation] *)
    leaderPulseT : Q;                          (* [this._leaderPulseT] *)
    dom : Dom;
    timers : list string;
      (* pending [setTimeout] callbacks, oldest first, each with the
         [st.def.id] it captured; all have the same delay *)
    console : list string;       (* ids warned about, oldest first *)
    interactions : list string }.
      (* instrumentation: the ids [onStationInteract] was called with, that
         is, the look-ups in [sectionMap], oldest first *)

(** The page before the first frame: [index.html] is mark-up, not code; the
    callout starts hidden and every text is empty. *)
Definition init_dom : Dom :=
  mkDom true false "" "" [] "" None false.

(** The module-level variables and the scene's fields as they are
    initialised in the source. *)
Definition init : State :=
  mkState false None None None 0 init_dom [] [] [].

(** *** Field updates *)

Definition set_calloutOpen (v : bool) (s : State) : State :=
  mkState v (calloutStationId s) (lastAutoOpenedId s) (nearestSceneStation s)
    (leaderPulseT s) (dom s) (timers s) (console s) (interactions s).
Definition set_calloutStationId (v : option string) (s : State) : State :=
  mkState (calloutOpen s) v (lastAutoOpenedId s) (nearestSceneStation s)
    (leaderPulseT s) (dom s) (timers s) (console s) (interactions s).
Definition set_lastAutoOpenedId (v : option string) (s : State) : State :=
  mkState (calloutOpen s) (calloutStationId s) v (nearestSceneStation s)
    (leaderPulseT s) (dom s) (timers s) (console s) (interactions s).
Definition set_nearestSceneStation (v : option StationDef) (s : State) : State :=
  mkState (calloutOpen s) (calloutStationId s) (lastAutoOpenedId s) v
    (leaderPulseT s) (dom s) (timers s) (console s) (interactions s).
Definition set_leaderPulseT (v : Q) (s : State) : State :=
  mkState (calloutOpen s) (calloutStationId s) (lastAutoOpenedId s)
    (nearestSceneStation s) v (dom s) (timers s) (console s) (interactions s).
Definition set_dom (v : Dom) (s : State) : State :=
  mkState (calloutOpen s) (calloutStationId s) (lastAutoOpenedId s)
    (nearestSceneStation s) (leaderPulseT s) v (timers s) (console s)
    (interactions s).
Definition set_timers (v : list string) (s : State) : State :=
  mkState (calloutOpen s) (calloutStationId s) (lastAutoOpenedId s)
    (nearestSceneStation s) (leaderPulseT s) (dom s) v (console s)
    (interactions s).
Definition set_console (v : list string) (s : State) : State :=
  mkState (calloutOpen s) (calloutStationId s) (lastAutoOpenedId s)
    (nearestSceneStation s) (leaderPulseT s) (dom s) (timers s) v
    (interactions s).
Definition set_interactions (v : list string) (s : State) : State :=
  mkState (calloutOpen s) (calloutStationId s) (lastAutoOpenedId s)
    (nearestSceneStation s) (leaderPulseT s) (dom s) (timers s) (console s) v.

Definition set_hidden (v : bool) (d : Dom) : Dom :=
  mkDom v (callout_signal_lost d) (callout_label d) (callout_title d)
    (callout_bullets d) (callout_signal d) (sidebar d) (leader_svg d).
Definition set_signal_lost (v : bool) (d : Dom) : Dom :=
  mkDom (callout_hidden d) v (callout_label d) (callout_title d)
    (callout_bullets d) (callout_signal d) (sidebar d) (leader_svg d).
Definition set_signal (v : string) (d : Dom) : Dom :=
  mkDom (callout_hidden d) (callout_signal_lost d) (callout_label d)
    (callout_title d) (callout_bullets d) v (sidebar d) (leader_svg d).
Definition set_content (l t : string) (b : list string) (d : Dom) : Dom :=
  mkDom (callout_hidden d) (callout_signal_lost d) l t b (callout_signal d)
    (sidebar d) (leader_svg d).
Definition set_sidebar (v : option (string * Section_)) (d : Dom) : Dom :=
  mkDom (callout_hidden d) (callout_signal_lost d) (callout_label d)
    (callout_title d) (callout_bullets d) (callout_signal d) v (leader_svg d).
Definition set_leader_svg (v : bool) (d : Dom) : Dom :=
  mkDom (callout_hidden d) (callout_signal_lost d) (callout_label d)
    (callout_title d) (callout_bullets d) (callout_signal d) (sidebar d) v.

(** *** JavaScript truthiness and identity on the values at hand *)

(** A string is truthy unless empty. *)
Definition truthy_string (s : string) : bool := negb (String.eqb s "").

(** [calloutStationId] in a condition: [null] and the empty string are falsy. *)
Definition truthy_id (o : option string) : bool :=
  match o with Some s => truthy_string s | None => false end.

(** [a === o] for a string [a] and a string-or-null [o]. *)
Definition same_id (a : string) (o : option string) : bool :=
  match o with Some b => String.eqb a b | None => false end.

(** [(x % 1)]: the remainder has the sign of the dividend. *)
Definition Qtrunc (v : Q) : Z := if Qltb v 0 then Qceiling v else Qfloor v.
Definition mod1 (v : Q) : Q := v - inject_Z (Qtrunc v).

Definition SIGNAL_LOST_TEXT : string := "⚠ SIGNAL LOST".

(** *** The machine *)

Section Scene.

(** [sectionMap] is filled once at start-up and the scene's [_stations]
    once in [create]; neither changes afterwards.  Keys that collide with
    properties inherited by every JavaScript object are not considered. *)
Variable sectionMap : gmap string Section_.
Variable stations : list StationDef.

Definition clearLeaderLine (s : State) : State :=
  set_dom (set_leader_svg false (dom s)) s.

Definition closeCallout (s : State) : State :=
  let s := set_dom (set_signal_lost false (set_hidden true (dom s))) s in
  let s := clearLeaderLine s in
  let s := set_calloutOpen false s in
  let s := set_calloutStationId None s in
  set_lastAutoOpenedId None s.

(** Of [updateSidebar] only the section shown is kept; the index highlight
    and the drawer follow from it. *)
Definition updateSidebar (section : Section_) (sectionId : string)
    (s : State) : State :=
  set_dom (set_sidebar (Some (sectionId, section)) (dom s)) s.

(** The two [requestAnimationFrame] callbacks only restart an animation and
    write the callout's position; they touch nothing recorded here. *)
Definition showCallout (section : Section_) (sectionId moduleLabel : string)
    (s : State) : State :=
  let s := set_calloutStationId (Some sectionId) s in
  let lbl := if truthy_string moduleLabel then moduleLabel else sectionId in
  let d := set_content lbl (title section)
             (firstn CALLOUT_BULLET_PREVIEW (bullets section)) (dom s) in
  let d := set_signal "" d in
  let d := set_signal_lost false (set_hidden false d) in
  set_calloutOpen true (set_dom d s).

Definition onStationInteract (sectionId moduleLabel : string)
    (s : State) : State :=
  let s := set_interactions (interactions s ++ [sectionId]) s in
  match sectionMap !! sectionId with
  | None => set_console (console s ++ [sectionId]) s
  | Some section =>
      showCallout section sectionId moduleLabel
        (updateSidebar section sectionId s)
  end.

(** squared distance from the player to a station *)
Definition dist2 (px py : Q) (s : StationDef) : Q :=
  hypot2 (x s - px) (y s - py).

(** [dist < minDist], where [None] is the initial [Infinity] *)
Definition below (d : Q) (minDist : option Q) : bool :=
  match minDist with None => true | Some m => Qltb d m end.

(** one iteration of [for (const s of this._stations)] on
    [(nearest, minDist)] *)
Definition nearest_step (px py : Q) (acc : option StationDef * option Q)
    (s : StationDef) : option StationDef * option Q :=
  let dist := dist2 px py s in
  if Qltb dist (sq INTERACT_R) && below dist (snd acc)
  then (Some s, Some dist) else acc.

Definition nearest (px py : Q) : option StationDef :=
  fst (fold_left (nearest_step px py) stations (None, None)).

(** lines 343 to 353: remember the nearest station, fire or reset *)
Definition proximity (px py : Q) (s : State) : State :=
  let n := nearest px py in
  let s := set_nearestSceneStation n s in
  match n with
  | Some n =>
      if negb (same_id (id n) (lastAutoOpenedId s)) then
        onStationInteract (id n) (label n)
          (set_lastAutoOpenedId (Some (id n)) s)
      else s
  | None =>
      match lastAutoOpenedId s with
      | Some _ => set_lastAutoOpenedId None s
      | None => s
      end
  end.

(** lines 356 to 376: the signal-lost check for the open callout *)
Definition signal_check (px py : Q) (s : State) : State :=
  if calloutOpen s && truthy_id (calloutStationId s) then
    match find (fun c => same_id (id c) (calloutStationId s)) stations with
    | Some st =>
        let dist := dist2 px py st in
        if Qltb (sq SIGNAL_LOST_R) dist then
          let s :=
            if negb (truthy_string (callout_signal (dom s)))
            then set_dom (set_signal SIGNAL_LOST_TEXT (dom s)) s else s in
          if negb (callout_signal_lost (dom s)) then
            set_timers (timers s ++ [id st])
              (set_dom (set_signal_lost true (dom s)) s)
          else s
        else
          set_dom (set_signal_lost false (set_signal "" (dom s))) s
    | None => s
    end
  else s.

Definition checkProximity (px py : Q) (s : State) : State :=
  signal_check px py (proximity px py s).

(** The callback given to [setTimeout], with the id it captured. *)
Definition timer_callback (captured : string) (s : State) : State :=
  if same_id captured (calloutStationId s) then closeCallout s else s.

(** [_updateLeaderLine]; the drawing itself is [Leader.drawLeaderLine]. *)
Definition updateLeaderLine (dt : Q) (s : State) : State :=
  if negb (calloutOpen s) || negb (truthy_id (calloutStationId s)) then
    clearLeaderLine s
  else
    match find (fun c => same_id (id c) (calloutStationId s)) stations with
    | None => clearLeaderLine s
    | Some _ =>
        let s := set_leaderPulseT
                   (mod1 (leaderPulseT s + dt * (45 # 100000))) s in
        set_dom (set_leader_svg (negb (callout_hidden (dom s))) (dom s)) s
    end.

(** [update], restricted to what it does to the state above: the player's
    position after [_handleMovement] is an input, pulses and glow only draw,
    [_updateCalloutPosition] only writes the callout's style. *)
Definition update (px py dt : Q) (s : State) : State :=
  updateLeaderLine dt (checkProximity px py s).

Inductive Event :=
| Tick (px py dt : Q)   (* one frame *)
| Close                 (* Esc, the close button, a click outside *)
| TimerElapsed.         (* the oldest pending timeout fires *)

Definition step (s : State) (e : Event) : State :=
  match e with
  | Tick px py dt => update px py dt s
  | Close => closeCallout s
  | TimerElapsed =>
      match timers s with
      | [] => s
      | captured :: rest => timer_callback captured (set_timers rest s)
      end
  end.

Definition run (es : list Event) (s : State) : State := fold_left step es s.

(** *** The machine's state as the specification names it *)

Inductive IState := Closed | Open (s : string) | OpenSignalLost (s : string).

Definition istate (s : State) : IState :=
  match calloutStationId s with
  | Some i =>
      if calloutOpen s && truthy_string i then
        if callout_signal_lost (dom s) then OpenSignalLost i else Open i
      else Closed
  | None => Closed
  end.

End Scene.

End Machine.

(** ** Predicates used in the statements *)

Module Props.

(** [b] is the first element of [l] at which [d] is largest. *)
Definition first_argmax {A} (d : A -> Q) (l : list A) (b : A) : Prop :=
  exists pre post,
    l = pre ++ b :: post /\
    Forall (fun c => d c < d b) pre /\
    Forall (fun c => d c <= d b) post.

(** [b] is the first element of [l] at which [d] is smallest among the
    elements that satisfy [ok], and [b] satisfies [ok]. *)
Definition first_argmin_among {A} (ok : A -> Prop) (d : A -> Q) (l : list A)
    (b : A) : Prop :=
  exists pre post,
    l = pre ++ b :: post /\ ok b /\
    Forall (fun c => ok c -> d b < d c) pre /\
    Forall (fun c => ok c -> d b <= d c) post.

(** Number of occurrences of an id in a log. *)
Definition occurrences (i : string) (l : list string) : nat :=
  length (List.filter (String.eqb i) l).

(** What the loop of [_checkProximity] knows after the stations [seen]. *)
Definition tracker_inv (px py : Q) (seen : list Machine.StationDef)
    (acc : option Machine.StationDef * option Q) : Prop :=
  let d := Machine.dist2 px py in
  let within := fun c => d c < sq Machine.INTERACT_R in
  match acc with
  | (None, None) => Forall (fun c => ~ within c) seen
  | (Some b, Some m) => m = d b /\ first_argmin_among within d seen b
  | _ => False
  end.

(** A frame given as position and elapsed time. *)
Definition tick_of (t : Q * Q * Q) : Machine.Event :=
  let '(px, py, dt) := t in Machine.Tick px py dt.

End Props.
Import Props.

(** ** Movement ([_handleMovement]) *)

Module Movement.

Definition PLAYER_SPEED : Q := 180.

(** Which of the arrow keys and of W, A, S, D are down. *)
Record Keys := mkKeys
  { cursors_left : bool; cursors_right : bool;
    cursors_up : bool; cursors_down : bool;
    wasd_left : bool; wasd_right : bool;
    wasd_up : bool; wasd_down : bool }.

(** The velocity handed to [player.setVelocity]. *)
Definition handleMovement (k : Keys) : Q * Q :=
  let vx := 0 in
  let vy := 0 in
  let vx := if cursors_left k || wasd_left k then - PLAYER_SPEED else vx in
  let vx := if cursors_right k || wasd_right k then PLAYER_SPEED else vx in
  let vy := if cursors_up k || wasd_up k then - PLAYER_SPEED else vy in
  let vy := if cursors_down k || wasd_down k then PLAYER_SPEED else vy in
  if negb (Qeq_bool vx 0) && negb (Qeq_bool vy 0)
  then (vx * (707 # 1000), vy * (707 # 1000))
  else (vx, vy).

End Movement.

(** ** Signal pulses along the traces ([_initPulses], [_updatePulses]) *)

Module Pulses.

Record Trace := mkTrace { x1 : Q; y1 : Q; x2 : Q; y2 : Q; speed : Q }.

Definition PULSE_TRACES : list Trace :=
  [ mkTrace 20   150 1180 150 (28 # 100);
    mkTrace 1180 300 20   300 (22 # 100);
    mkTrace 20   440 1180 440 (35 # 100);
    mkTrace 1180 600 20   600 (30 # 100);
    mkTrace 100  760 1100 760 (40 # 100);
    mkTrace 360  20  360  880 (25 # 100);
    mkTrace 600  880 600  20  (32 # 100);
    mkTrace 840  20  840  880 (28 # 100);
    mkTrace 140  880 140  20  (20 # 100);
    mkTrace 1060 20  1060 880 (38 # 100) ].

(** A trace with its phase [t]. *)
Record Pulse := mkPulse { trace : Trace; t : Q }.

(** [traces.map((tr, i) => ({...tr, t: i / traces.length}))] *)
Definition initPulsesOf (traces : list Trace) : list Pulse :=
  imap (fun i tr =>
          mkPulse tr (inject_Z (Z.of_nat i)
                      / inject_Z (Z.of_nat (length traces)))) traces.

Definition initPulses : list Pulse := initPulsesOf PULSE_TRACES.

(** [p.t = (p.t + p.speed * dt * 0.0001) % 1] *)
Definition advance (dt : Q) (p : Pulse) : Pulse :=
  mkPulse (trace p)
    (Machine.mod1 (t p + speed (trace p) * dt * (1 # 10000))).

(** The point at which the pulse is drawn. *)
Definition position (p : Pulse) : Q * Q :=
  (x1 (trace p) + (x2 (trace p) - x1 (trace p)) * t p,
   y1 (trace p) + (y2 (trace p) - y1 (trace p)) * t p).

(** The pulses after one frame; each is drawn at its [position]. *)
Definition updatePulses (dt : Q) (ps : list Pulse) : list Pulse :=
  map (advance dt) ps.

Definition frames (dts : list Q) (ps : list Pulse) : list Pulse :=
  fold_left (fun ps dt => updatePulses dt ps) dts ps.

End Pulses.

(** ** World to screen ([worldToScreen], [playerScreen]) and the per-frame
    placement ([_updateCalloutPosition]) *)

Module Screen.

(** What [worldToScreen] reads from the scene and the page. *)
Record View := mkView
  { displayW : Q; displayH : Q;       (* [this.scale.displaySize] *)
    gameW : Q; gameH : Q;             (* [this.scale.gameSize] *)
    canvasRect : option (Q * Q);      (* left and top of the canvas, if any *)
    containerRect : Q * Q;            (* left and top of [#game-container] *)
    worldViewX : Q; worldViewY : Q }. (* [cam.worldView] *)

Definition worldToScreen (v : View) (worldX worldY : Q) : option (Q * Q) :=
  match Leader.jsdiv (displayW v) (gameW v),
        Leader.jsdiv (displayH v) (gameH v) with
  | Some scaleX, Some scaleY =>
      let canvasR :=
        match canvasRect v with Some r => r | None => containerRect v end in
      let canvasOffsetX := fst canvasR - fst (containerRect v) in
      let canvasOffsetY := snd canvasR - snd (containerRect v) in
      Some (canvasOffsetX + (worldX - worldViewX v) * scaleX,
            canvasOffsetY + (worldY - worldViewY v) * scaleY)
  | _, _ => None
  end.

Definition playerScreen (v : View) (player : Q * Q) : option (Q * Q) :=
  worldToScreen v (fst player) (snd player).

Inductive Placed :=
| NotPlaced                 (* the function returned before writing *)
| PlacedAt (l t : Q)        (* [style.left] and [style.top] in px *)
| PlacedUndefined.          (* a scale had a zero divisor *)

(** [positionCallout] as it is called, on world coordinates, with the scene
    present. *)
Definition positionCalloutWorld (v : View) (player : Q * Q) (hidden : bool)
    (offsetWidth offsetHeight gaW gaH : Q) (stationWorldX stationWorldY : Q)
    : Placed :=
  if hidden then NotPlaced else
  match worldToScreen v stationWorldX stationWorldY, playerScreen v player with
  | Some (sx, sy), Some (px, py) =>
      match Placement.positionCallout true hidden sx sy px py
              offsetWidth offsetHeight gaW gaH with
      | Some (l, t) => PlacedAt l t
      | None => NotPlaced
      end
  | _, _ => PlacedUndefined
  end.

Definition updateCalloutPosition (stations : list Machine.StationDef)
    (v : View) (player : Q * Q) (offsetWidth offsetHeight gaW gaH : Q)
    (s : Machine.State) : Placed :=
  if negb (Machine.calloutOpen s)
     || negb (Machine.truthy_id (Machine.calloutStationId s)) then NotPlaced
  else
    match find (fun c => Machine.same_id (Machine.id c)
                           (Machine.calloutStationId s)) stations with
    | None => NotPlaced
    | Some st =>
        positionCalloutWorld v player (Machine.callout_hidden (Machine.dom s))
          offsetWidth offsetHeight gaW gaH (Machine.x st) (Machine.y st)
    end.

End Screen.

(** ** The sidebar's panel ([updateSidebar], [setupDOM]) *)

Module Panel.

(** Classes and toggle button of [#sidebar]. *)
Record Panel := mkPanel
  { collapsed : bool;        (* class [collapsed] *)
    drawer_open : bool;      (* class [drawer-open] *)
    aria_expanded : bool;    (* [aria-expanded] of [#sidebar-toggle] *)
    toggle_text : string }.  (* text of [#sidebar-toggle] *)

(** The end of [updateSidebar]: expand on the desktop, open the drawer on a
    narrow window. *)
Definition reveal (innerWidth : Z) (p : Panel) : Panel :=
  let p :=
    if collapsed p then
      if (700 <? innerWidth)%Z
      then mkPanel false (drawer_open p) true "◀"
      else p
    else p in
  if (innerWidth <=? 700)%Z
  then mkPanel (collapsed p) true (aria_expanded p) (toggle_text p)
  else p.

(** The click handler of [#sidebar-toggle]. *)
Definition toggle (innerWidth : Z) (p : Panel) : Panel :=
  let isMobile := (innerWidth <=? 700)%Z in
  if isMobile then
    let open := negb (drawer_open p) in
    mkPanel (collapsed p) open open (if open then "▼" else "▲")
  else
    let c := negb (collapsed p) in
    mkPanel c (drawer_open p) (negb c) (if c then "▶" else "◀").

(** The click handler of [#callout-open-btn]. *)
Definition openInReadout (innerWidth : Z) (p : Panel) : Panel :=
  mkPanel false
    (if (innerWidth <=? 700)%Z then true else drawer_open p) true "◀".

End Panel.

(** ** Predicates on runs, paths and points *)

Module Reach.

(** Frames never report a negative elapsed time. *)
Definition nonneg_dt (e : Machine.Event) : Prop :=
  match e with Machine.Tick _ _ dt => 0 <= dt | _ => True end.

Definition is_station (stations : list Machine.StationDef) (i : string) : Prop :=
  exists c, In c stations /\ Machine.id c = i.

(** What holds of the callout's flags in every state the machine reaches. *)
Definition consistent (sectionMap : gmap string Machine.Section_)
    (stations : list Machine.StationDef) (s : Machine.State) : Prop :=
  Machine.calloutOpen s = negb (Machine.callout_hidden (Machine.dom s)) /\
  Machine.calloutOpen s
    = match Machine.calloutStationId s with Some _ => true | None => false end /\
  (Machine.callout_signal_lost (Machine.dom s) = true ->
   Machine.calloutOpen s = true) /\
  (forall i, Machine.calloutStationId s = Some i ->
     (exists sec, sectionMap !! i = Some sec) /\ is_station stations i) /\
  Forall (is_station stations) (Machine.timers s) /\
  Forall (fun i => sectionMap !! i = None) (Machine.console s).

(** [v] lies between [a] and [b], whichever is larger. *)
Definition between (a b v : Q) : Prop := Qmin a b <= v <= Qmax a b.

(** The point lies on the border of the rectangle. *)
Definition on_border (r : Leader.Rect) (p : Q * Q) : Prop :=
  Leader.cLeft r <= fst p <= Leader.cRight r /\
  Leader.cTop r <= snd p <= Leader.cBottom r /\
  (fst p == Leader.cLeft r \/ fst p == Leader.cRight r \/
   snd p == Leader.cTop r \/ snd p == Leader.cBottom r).

(** Two consecutive points of a path differ in one coordinate only. *)
Fixpoint orthogonal (pts : list (Q * Q)) : Prop :=
  match pts with
  | p :: (q :: _) as rest =>
      (fst p == fst q \/ snd p == snd q) /\ orthogonal rest
  | _ => True
  end.

End Reach.
Import Reach.

(** ** Euclidean distances as real numbers *)

Module Distance.

(** The value of [Math.hypot(a, b)]: the length of the vector [(a, b)]. *)
Definition euclid (a b : Q) : R := R_sqrt.sqrt (Q2R (a * a + b * b)).


(** Distance from the player to a station, both in the world. *)
Definition station_distance (px py : Q) (s : Machine.StationDef) : R :=
  euclid (Machine.x s - px) (Machine.y s - py).


(** [b] is strictly within [r] and is the first element of [l] at which the
    distance [d] is smallest among the elements strictly within [r]. *)
Definition first_nearest_within {A} (r : R) (d : A -> R) (l : list A)
    (b : A) : Prop :=
  exists pre post,
    l = pre ++ b :: post /\ (d b < r)%R /\
    Forall (fun c => (d c < r)%R -> (d b < d c)%R) pre /\
    Forall (fun c => (d c < r)%R -> (d b <= d c)%R) post.

End Distance.
Import Distance.

(** ** Runs of frames *)

Module Frames.

(** The callout is closed after each of the frames [ts], run from [s]. *)
Fixpoint stays_closed (sectionMap : gmap string Machine.Section_)
    (stations : list Machine.StationDef) (ts : list (Q * Q * Q))
    (s : Machine.State) : Prop :=
  match ts with
  | [] => True
  | t :: ts' =>
      Machine.calloutOpen (Machine.step sectionMap stations s (tick_of t))
        = false /\
      stays_closed sectionMap stations ts'
        (Machine.step sectionMap stations s (tick_of t))
  end.

End Frames.
Import Frames.

(** * Properties *)

(** ** Numbers *)

Lemma Qltb_lt a b : Qltb a b = true <-> a < b.
Proof.
  unfold Qltb. rewrite negb_true_iff. split; intros H.
  - apply Qnot_le_lt. intros Hle. apply Qle_bool_iff in Hle. congruence.
  - destruct (Qle_bool b a) eqn:E; [|reflexivity].
    apply Qle_bool_iff in E. exfalso. apply (Qlt_not_le _ _ H E).
Qed.

Lemma Qltb_ge a b : Qltb a b = false <-> b <= a.
Proof.
  unfold Qltb. rewrite negb_false_iff. apply Qle_bool_iff.
Qed.

Lemma Qle_bool_gt a b : Qle_bool a b = false <-> b < a.
Proof.
  split; intros H.
  - apply Qnot_le_lt. intros Hle. apply Qle_bool_iff in Hle. congruence.
  - destruct (Qle_bool a b) eqn:E; [|reflexivity].
    apply Qle_bool_iff in E. exfalso. apply (Qlt_not_le _ _ H E).
Qed.

Lemma hypot2_nonneg a b : 0 <= hypot2 a b.
Proof. unfold hypot2. nra. Qed.

(** ** Squares and distances *)

Section DistanceFacts.

Lemma Q2R_zero : Q2R 0 = 0%R.
Proof. unfold Q2R. cbn. apply Rmult_0_l. Qed.

Lemma sum_squares_nonneg (a b : Q) : (0 <= Q2R (a * a + b * b))%R.
Proof. rewrite <- Q2R_zero. apply Qle_Rle. nra. Qed.

(** Comparing sums of squares is comparing the distances. *)
Lemma euclid_lt (a b c d : Q) :
  a * a + b * b < c * c + d * d -> (euclid a b < euclid c d)%R.
Proof.
  intros H. unfold euclid.
  apply sqrt_lt_1; [apply sum_squares_nonneg | apply sum_squares_nonneg |].
  apply Qlt_Rlt, H.
Qed.

Lemma euclid_le (a b c d : Q) :
  a * a + b * b <= c * c + d * d -> (euclid a b <= euclid c d)%R.
Proof.
  intros H. unfold euclid.
  apply sqrt_le_1; [apply sum_squares_nonneg | apply sum_squares_nonneg |].
  apply Qle_Rle, H.
Qed.

(** A distance is below a radius exactly when its square is below the square
    of the radius. *)
Lemma euclid_lt_radius (a b r : Q) :
  0 <= r -> ((euclid a b < Q2R r)%R <-> a * a + b * b < r * r).
Proof.
  intros Hr.
  assert (Hr' : (0 <= Q2R r)%R) by (rewrite <- Q2R_zero; apply Qle_Rle, Hr).
  unfold euclid. split; intros H.
  - apply Rlt_Qlt. rewrite (Q2R_mult r r).
    rewrite <- (sqrt_sqrt (Q2R (a * a + b * b))) by apply sum_squares_nonneg.
    apply Rmult_le_0_lt_compat; try apply sqrt_pos; exact H.
  - rewrite <- (sqrt_square (Q2R r)) by exact Hr'.
    apply sqrt_lt_1.
    + apply sum_squares_nonneg.
    + apply Rmult_le_pos; exact Hr'.
    + rewrite <- Q2R_mult. apply Qlt_Rlt, H.
Qed.

End DistanceFacts.

(** ** Callout placement *)

Section PlacementFacts.

Import Placement.
Variables OFF PAD sx sy px py cw ch gaW gaH : Q.

Local Abbreviation d := (centre_dist2 px py cw ch).

Lemma clamp_lower v hi : PAD <= clamp PAD v hi.
Proof. unfold clamp. apply Q.le_max_l. Qed.

Lemma clamp_upper v hi : PAD <= hi -> clamp PAD v hi <= hi.
Proof.
  intros H. unfold clamp. apply Q.max_lub; [exact H | apply Q.le_min_r].
Qed.

Lemma clamp_crossed v hi : hi < PAD -> clamp PAD v hi == PAD.
Proof.
  intros H. unfold clamp. apply Q.max_l.
  apply Qle_trans with hi; [apply Q.le_min_r | apply Qlt_le_weak, H].
Qed.

Lemma fitsb_spec c :
  fitsb PAD cw ch gaW gaH c = true <->
  PAD <= left c /\ PAD <= top c /\
  left c + cw <= gaW - PAD /\ top c + ch <= gaH - PAD.
Proof.
  unfold fitsb. rewrite !andb_true_iff, !Qle_bool_iff. tauto.
Qed.

(** The loop keeps the first candidate of largest distance seen so far. *)
Lemma select_loop (l seen : list Candidate) (b : Candidate) :
  first_argmax d seen b ->
  let r := fold_left (select_step px py cw ch) l (b, Some (d b)) in
  first_argmax d (seen ++ l) (fst r).
Proof.
  revert seen b. induction l as [|c l IH]; intros seen b Hb; cbn.
  - rewrite app_nil_r. exact Hb.
  - replace (seen ++ c :: l) with ((seen ++ [c]) ++ l)
      by (rewrite <- app_assoc; reflexivity).
    unfold select_step at 2. cbn [snd beats].
    destruct (Qltb (d b) (d c)) eqn:E.
    + apply Qltb_lt in E. apply IH.
      destruct Hb as (pre & post & -> & Hpre & Hpost).
      exists (pre ++ b :: post), []. repeat split.
      * rewrite Forall_app. split.
        -- eapply List.Forall_impl; [|exact Hpre]. cbn. intros a Ha. lra.
        -- constructor; [exact E|].
           eapply List.Forall_impl; [|exact Hpost]. cbn. intros a Ha. lra.
      * constructor.
    + apply Qltb_ge in E. apply IH.
      destruct Hb as (pre & post & -> & Hpre & Hpost).
      exists pre, (post ++ [c]). repeat split.
      * rewrite <- app_assoc. reflexivity.
      * exact Hpre.
      * rewrite Forall_app. split; [exact Hpost|]. constructor; [exact E|constructor].
Qed.

Lemma select_from_first_argmax (first c : Candidate) (l : list Candidate) :
  first_argmax d (c :: l) (select_from px py cw ch first (c :: l)).
Proof.
  unfold select_from. cbn [fold_left]. unfold select_step at 2.
  cbn [snd beats].
  apply (select_loop l [c] c).
  exists [], []. repeat split; constructor.
Qed.

Lemma candidates_names :
  map name (candidates OFF sx sy cw ch) =
    [TopRight; TopLeft; BottomRight; BottomLeft].
Proof. reflexivity. Qed.

Lemma pool_cases :
  (fits OFF PAD sx sy cw ch gaW gaH = [] /\
   pool OFF PAD sx sy cw ch gaW gaH = candidates OFF sx sy cw ch) \/
  (fits OFF PAD sx sy cw ch gaW gaH <> [] /\
   pool OFF PAD sx sy cw ch gaW gaH = fits OFF PAD sx sy cw ch gaW gaH).
Proof.
  unfold pool. destruct (fits OFF PAD sx sy cw ch gaW gaH) eqn:E.
  - left. split; reflexivity.
  - right. split; [discriminate | reflexivity].
Qed.

Lemma pool_nonempty : pool OFF PAD sx sy cw ch gaW gaH <> [].
Proof.
  destruct pool_cases as [[_ ->]|[H ->]]; [discriminate | exact H].
Qed.

End PlacementFacts.

Section PlacementClaims.

Import Placement.
Variables OFF PAD sx sy px py cw ch gaW gaH : Q.

Local Abbreviation the_candidates := (candidates OFF sx sy cw ch).
Local Abbreviation the_fits := (fits OFF PAD sx sy cw ch gaW gaH).
Local Abbreviation the_pool := (pool OFF PAD sx sy cw ch gaW gaH).
Local Abbreviation the_best := (best OFF PAD sx sy px py cw ch gaW gaH).

(** C5.  When the viewport is at least the callout plus twice the padding on
    both axes, the placed rectangle lies inside the viewport shrunk by the
    padding: [PAD <= left], [left + cw <= gaW - PAD], [PAD <= top] and
    [top + ch <= gaH - PAD], whatever the station, the player and the offset. *)
Theorem placement_inside_padded_viewport :
  cw + 2 * PAD <= gaW -> ch + 2 * PAD <= gaH ->
  PAD <= clampedLeft OFF PAD sx sy px py cw ch gaW gaH /\
  clampedLeft OFF PAD sx sy px py cw ch gaW gaH + cw <= gaW - PAD /\
  PAD <= clampedTop OFF PAD sx sy px py cw ch gaW gaH /\
  clampedTop OFF PAD sx sy px py cw ch gaW gaH + ch <= gaH - PAD.
Proof.
  intros HW HH. unfold clampedLeft, clampedTop.
  pose proof (clamp_lower PAD (left the_best) (gaW - cw - PAD)) as L1.
  pose proof (clamp_lower PAD (top the_best) (gaH - ch - PAD)) as T1.
  assert (L2 : clamp PAD (left the_best) (gaW - cw - PAD) <= gaW - cw - PAD)
    by (apply clamp_upper; lra).
  assert (T2 : clamp PAD (top the_best) (gaH - ch - PAD) <= gaH - ch - PAD)
    by (apply clamp_upper; lra).
  repeat split; lra.
Qed.


(** C10.  On an axis where the viewport is smaller than the callout plus
    twice the padding, the clamped origin is the padding itself and the
    callout runs past the far padding line; on every axis, crossed or not,
    the origin is never before the padding line. *)
Theorem placement_crossed_bounds_give_padding :
  (gaW < cw + 2 * PAD ->
   clampedLeft OFF PAD sx sy px py cw ch gaW gaH == PAD /\
   gaW - PAD < clampedLeft OFF PAD sx sy px py cw ch gaW gaH + cw) /\
  (gaH < ch + 2 * PAD ->
   clampedTop OFF PAD sx sy px py cw ch gaW gaH == PAD /\
   gaH - PAD < clampedTop OFF PAD sx sy px py cw ch gaW gaH + ch) /\
  PAD <= clampedLeft OFF PAD sx sy px py cw ch gaW gaH /\
  PAD <= clampedTop OFF PAD sx sy px py cw ch gaW gaH.
Proof.
  unfold clampedLeft, clampedTop. repeat split.
  - apply clamp_crossed. lra.
  - rewrite clamp_crossed by lra. lra.
  - apply clamp_crossed. lra.
  - rewrite clamp_crossed by lra. lra.
  - apply clamp_lower.
  - apply clamp_lower.
Qed.

End PlacementClaims.

Section PlacementScenarios.

Import Placement.

Lemma placement_inside_padded_viewport_witness :
  220 + 2 * 12 <= 400 /\ 160 + 2 * 12 <= 300 /\
  12 <= clampedLeft 36 12 10 10 300 300 220 160 400 300 /\
  clampedLeft 36 12 10 10 300 300 220 160 400 300 + 220 <= 400 - 12 /\
  12 <= clampedTop 36 12 10 10 300 300 220 160 400 300 /\
  clampedTop 36 12 10 10 300 300 220 160 400 300 + 160 <= 300 - 12.
Proof.
  split; [unfold Qle; simpl; lia|].
  split; [unfold Qle; simpl; lia|].
  apply (placement_inside_padded_viewport 36 12 10 10 300 300 220 160 400 300);
    unfold Qle; simpl; lia.
Defined.

Lemma placement_crossed_bounds_give_padding_witness :
  200 < 220 + 2 * 12 /\ 100 < 160 + 2 * 12 /\
  clampedLeft 36 12 10 10 300 300 220 160 200 100 == 12 /\
  clampedTop 36 12 10 10 300 300 220 160 200 100 == 12.
Proof.
  split; [reflexivity|]. split; [reflexivity|].
  pose proof
    (placement_crossed_bounds_give_padding 36 12 10 10 300 300 220 160 200 100)
    as (HL & HT & _).
  split.
  - apply HL. reflexivity.
  - apply HT. reflexivity.
Defined.

(** C2 (as amended).  Viewport 400 by 300, callout 220 by 160, offset 36,
    padding 12, station at (10, 10): exactly one candidate, the bottom-right
    one with origin (46, 46), passes the fit filter, so the pool is the
    filtered list and not the four candidates; that candidate is chosen
    wherever the player is, the clamp leaves it where it is, and the origin
    lies in [12, 168] by [12, 128]. *)
Theorem scenario_C_bottom_right_is_placed (px py : Q) :
  fits 36 12 10 10 220 160 400 300 = [mkCandidate BottomRight 46 46] /\
  pool 36 12 10 10 220 160 400 300 = [mkCandidate BottomRight 46 46] /\
  best 36 12 10 10 px py 220 160 400 300 = mkCandidate BottomRight 46 46 /\
  positionCallout true false 10 10 px py 220 160 400 300 = Some (46, 46) /\
  exists l t,
    positionCallout true false 10 10 px py 220 160 400 300 = Some (l, t) /\
    12 <= l <= 400 - 220 - 12 /\ 12 <= t <= 300 - 160 - 12 /\
    400 - 220 - 12 == 168 /\ 300 - 160 - 12 == 128.
Proof.
  assert (H : positionCallout true false 10 10 px py 220 160 400 300
              = Some (46, 46)) by reflexivity.
  repeat split; try reflexivity.
  exists 46, 46. split; [exact H|].
  repeat split; try reflexivity; unfold Qle; simpl; lia.
Qed.

(** C2 as the specification words it fails: the bottom-right candidate
    passes the filter, the fallback to the four candidates is not taken, and
    with the player at (300, 300) the chosen candidate is strictly nearer to
    the player than the top-left one of the unfiltered four. *)
Lemma scenario_C_not_all_candidates_fail :
  fitsb 12 220 160 400 300 (mkCandidate BottomRight (10 + 36) (10 + 36)) = true /\
  In (mkCandidate BottomRight (10 + 36) (10 + 36)) (candidates 36 10 10 220 160) /\
  fits 36 12 10 10 220 160 400 300 <> [] /\
  pool 36 12 10 10 220 160 400 300 <> candidates 36 10 10 220 160 /\
  In (mkCandidate TopLeft (10 - 220 - 36) (10 - 160 - 36))
     (candidates 36 10 10 220 160) /\
  centre_dist2 300 300 220 160 (best 36 12 10 10 300 300 220 160 400 300)
  < centre_dist2 300 300 220 160
      (mkCandidate TopLeft (10 - 220 - 36) (10 - 160 - 36)).
Proof.
  split; [reflexivity|].
  split; [cbn; tauto|].
  split; [vm_compute; discriminate|].
  split; [vm_compute; discriminate|].
  split; [cbn; tauto|].
  reflexivity.
Qed.

End PlacementScenarios.

(** ** Leader line *)

Section LeaderFacts.

Import Leader.

(** [lra] on the rationals does not read [_ / 2]. *)
Ltac half_lra := unfold Qdiv in *; change (/ 2) with (1 # 2) in *; lra.

Lemma jsdiv_some a b : ~ b == 0 -> jsdiv a b = Some (a / b).
Proof.
  intros H. unfold jsdiv. destruct (Qeq_bool b 0) eqn:E; [|reflexivity].
  apply Qeq_bool_iff in E. contradiction.
Qed.

Lemma or_default_nonzero v : ~ or_default v 1 == 0.
Proof.
  unfold or_default. destruct (Qeq_bool v 0) eqn:E.
  - intros H. discriminate H.
  - apply Qeq_bool_neq in E. exact E.
Qed.

Lemma or_default_zero v : v == 0 -> or_default v 1 = 1.
Proof.
  intros H. unfold or_default. apply Qeq_bool_iff in H. rewrite H. reflexivity.
Qed.

Lemma sign_neg v : v < 0 -> sign v = -1.
Proof.
  intros H. pose proof (proj1 (Qlt_alt v 0) H) as E.
  unfold sign. rewrite E. reflexivity.
Qed.

Lemma Qabs_zero v : v == 0 -> Qabs v == 0.
Proof. intros H. rewrite H. reflexivity. Qed.

Lemma Qabs_nonzero v : ~ v == 0 -> ~ Qabs v == 0.
Proof.
  intros H H0. apply H.
  destruct (Qlt_le_dec v 0) as [Hn|Hp].
  - rewrite Qabs_neg in H0 by lra. lra.
  - rewrite Qabs_pos in H0 by lra. exact H0.
Qed.

Lemma both_zero_test dx dy :
  Qeq_bool (Qabs dx) 0 && Qeq_bool (Qabs dy) 0 = true <-> dx == 0 /\ dy == 0.
Proof.
  rewrite andb_true_iff, !Qeq_bool_iff. split; intros [H1 H2]; split.
  - destruct (Qeq_dec dx 0) as [E|E]; [exact E|].
    exfalso. exact (Qabs_nonzero _ E H1).
  - destruct (Qeq_dec dy 0) as [E|E]; [exact E|].
    exfalso. exact (Qabs_nonzero _ E H2).
  - apply Qabs_zero, H1.
  - apply Qabs_zero, H2.
Qed.

(** Every divisor of the exit-point computation is non-zero once the callout
    has a positive height and a non-negative width. *)
Lemma exit_point_defined r sx sy :
  cLeft r <= cRight r -> cTop r < cBottom r ->
  exists e, exit_point r sx sy = Some e.
Proof.
  intros HW HH. unfold exit_point. cbv zeta.
  set (dx := sx - cCX r). set (dy := sy - cCY r).
  destruct (Qeq_bool (Qabs dx) 0 && Qeq_bool (Qabs dy) 0) eqn:Z; [eauto|].
  set (hw := (cRight r - cLeft r) / 2). set (hh := (cBottom r - cTop r) / 2).
  assert (Hhw : 0 <= hw) by (unfold hw; half_lra).
  assert (Hhh : 0 < hh) by (unfold hh; half_lra).
  pose proof (Qabs_nonneg dx) as Ax. pose proof (Qabs_nonneg dy) as Ay.
  destruct (Qltb (Qabs dy * hw) (Qabs dx * hh)) eqn:B.
  - apply Qltb_lt in B.
    assert (N : ~ Qabs dx == 0).
    { intros E. rewrite E in B.
      assert (0 <= Qabs dy * hw) by (apply Qmult_le_0_compat; assumption).
      lra. }
    rewrite (jsdiv_some _ _ N). eauto.
  - apply Qltb_ge in B.
    assert (N : ~ Qabs dy == 0).
    { intros E. rewrite E in B.
      assert (Hx : Qabs dx == 0).
      { destruct (Qeq_dec (Qabs dx) 0) as [E0|E0]; [exact E0|].
        assert (0 < Qabs dx) by lra.
        assert (0 < Qabs dx * hh) by (apply Qmult_lt_0_compat; assumption).
        lra. }
      assert (Z' : Qeq_bool (Qabs dx) 0 && Qeq_bool (Qabs dy) 0 = true).
      { apply andb_true_iff. split; apply Qeq_bool_iff; assumption. }
      congruence. }
    rewrite (jsdiv_some _ _ N). eauto.
Qed.

(** The station straight above the callout's centre: the line leaves through
    the middle of the top edge, and the one division has a non-zero divisor. *)
Lemma exit_point_above r sx sy :
  cLeft r <= cRight r -> sx == cCX r -> sy < cCY r ->
  exists ex ey,
    exit_point r sx sy = Some (ex, ey) /\ ex == cCX r /\ ey == cTop r.
Proof.
  intros HW Hx Hy. unfold exit_point. cbv zeta.
  set (dx := sx - cCX r). set (dy := sy - cCY r).
  assert (Dx : dx == 0) by (unfold dx; lra).
  assert (Dy : dy < 0) by (unfold dy; lra).
  assert (Ay : ~ Qabs dy == 0) by (apply Qabs_nonzero; lra).
  destruct (Qeq_bool (Qabs dx) 0 && Qeq_bool (Qabs dy) 0) eqn:Z.
  { apply both_zero_test in Z. lra. }
  set (hw := (cRight r - cLeft r) / 2). set (hh := (cBottom r - cTop r) / 2).
  assert (Hhw : 0 <= hw) by (unfold hw; half_lra).
  destruct (Qltb (Qabs dy * hw) (Qabs dx * hh)) eqn:B.
  { apply Qltb_lt in B. rewrite (Qabs_zero _ Dx) in B.
    assert (0 <= Qabs dy * hw)
      by (apply Qmult_le_0_compat; [apply Qabs_nonneg | exact Hhw]).
    lra. }
  rewrite (jsdiv_some _ _ Ay).
  eexists _, _. split; [reflexivity|]. split.
  - rewrite Dx. ring.
  - rewrite (sign_neg _ Dy). unfold cCY, hh. field.
Qed.

(** The station on the callout's centre: the top-edge midpoint, by
    convention, with no division at all. *)
Lemma exit_point_centre r sx sy :
  sx == cCX r -> sy == cCY r -> exit_point r sx sy = Some (cCX r, cTop r).
Proof.
  intros Hx Hy. unfold exit_point. cbv zeta.
  assert (Z : Qeq_bool (Qabs (sx - cCX r)) 0
              && Qeq_bool (Qabs (sy - cCY r)) 0 = true).
  { apply both_zero_test. split; lra. }
  rewrite Z. reflexivity.
Qed.

(** The divisors [seg || 1] of the pulse dot are never zero. *)
Lemma pulse_dot_defined ex ey sx sy pulseT :
  exists dot, pulse_dot ex ey sx sy pulseT = Some dot.
Proof.
  unfold pulse_dot. cbv zeta.
  repeat match goal with
  | |- context [Qle_bool ?a ?b] => destruct (Qle_bool a b)
  | |- context [jsdiv ?a (or_default ?b 1)] =>
      rewrite (jsdiv_some a _ (or_default_nonzero b))
  end; eauto.
Qed.

Lemma pulse_dot_by_fraction ex ey sx sy pulseT :
  pulse_dot ex ey sx sy pulseT =
  match pulse_fraction ex ey sx sy pulseT with
  | None => None
  | Some f =>
      match fst (fst (pulse_segment ex ey sx sy pulseT)) with
      | Seg1 => Some (ex + (midX ex sx - ex) * f, ey)
      | Seg2 => Some (midX ex sx, ey + (sy - ey) * f)
      | Seg3 => Some (midX ex sx + (sx - midX ex sx) * f, sy)
      end
  end.
Proof.
  unfold pulse_dot, pulse_fraction, pulse_segment. cbv zeta.
  repeat match goal with
  | |- context [Qle_bool ?a ?b] => destruct (Qle_bool a b)
  end; cbn; reflexivity.
Qed.

Lemma totalDist_segments ex ey sx sy :
  totalDist ex ey sx sy ==
  Qabs (midX ex sx - ex) + Qabs (sy - ey) + Qabs (sx - midX ex sx).
Proof. reflexivity. Qed.

(** With the phase in [0, 1) the dot is never placed a positive way into a
    segment of length zero: the fraction is 0 there. *)
Lemma pulse_fraction_zero_length ex ey sx sy pulseT seg within len :
  0 <= pulseT < 1 ->
  pulse_segment ex ey sx sy pulseT = (seg, within, len) ->
  len == 0 ->
  exists f, pulse_fraction ex ey sx sy pulseT = Some f /\ f == 0.
Proof.
  intros [P0 P1] Hseg Hlen.
  unfold pulse_fraction. rewrite Hseg.
  rewrite (or_default_zero _ Hlen).
  exists (within / 1). split; [reflexivity|].
  assert (W : within == 0); [|rewrite W; reflexivity].
  revert Hseg. unfold pulse_segment. cbv zeta. unfold totalDist.
  set (s1 := Qabs (midX ex sx - ex)). set (s2 := Qabs (sy - ey)).
  set (s3 := Qabs (sx - midX ex sx)).
  assert (H1 : 0 <= s1) by apply Qabs_nonneg.
  assert (H2 : 0 <= s2) by apply Qabs_nonneg.
  assert (H3 : 0 <= s3) by apply Qabs_nonneg.
  assert (T0 : 0 <= pulseT * (s1 + s2 + s3))
    by (apply Qmult_le_0_compat; lra).
  assert (T1 : pulseT * (s1 + s2 + s3) <= s1 + s2 + s3).
  { apply Qle_trans with (1 * (s1 + s2 + s3)); [|lra].
    apply Qmult_le_compat_r; lra. }
  destruct (Qle_bool (pulseT * (s1 + s2 + s3)) s1) eqn:B1.
  - apply Qle_bool_iff in B1. intros E. injection E as _ <- <-. lra.
  - apply Qle_bool_gt in B1.
    destruct (Qle_bool (pulseT * (s1 + s2 + s3)) (s1 + s2)) eqn:B2.
    + apply Qle_bool_iff in B2. intros E. injection E as _ <- <-. lra.
    + apply Qle_bool_gt in B2. intros E. injection E as _ <- <-. lra.
Qed.

(** The hypothesis of a positive height is needed: for a callout of height
    zero and a station level with it, the source divides 0 by 0. *)
Example exit_point_flat_callout : exit_point (mkRect 0 0 10 0) 20 0 = None.
Proof. reflexivity. Qed.

End LeaderFacts.

Section LeaderClaims.

Import Leader.

(** C9.  The leader line is defined on the degenerate inputs; no divisor is
    zero there.  With the station straight above the callout's centre
    ([dx = 0]) the exit point is the middle of the top edge; with the station
    on the centre ([dx = dy = 0]) it is that point too, by convention; the
    pulse dot is computed whatever the segment lengths, since its divisors are
    [seg || 1]; with the phase in [0, 1) the fraction inside a segment of
    length zero is 0; and for a callout of positive height the whole drawing
    is computed without a zero divisor. *)
Theorem leader_line_total_on_degenerate_inputs (r : Rect) (sx sy pulseT : Q) :
  cLeft r <= cRight r ->
  (sx == cCX r -> sy < cCY r ->
   exists ex ey,
     exit_point r sx sy = Some (ex, ey) /\ ex == cCX r /\ ey == cTop r) /\
  (sx == cCX r -> sy == cCY r ->
   exit_point r sx sy = Some (cCX r, cTop r)) /\
  (forall ex ey, exists dot, pulse_dot ex ey sx sy pulseT = Some dot) /\
  (0 <= pulseT < 1 ->
   forall ex ey seg within len,
     pulse_segment ex ey sx sy pulseT = (seg, within, len) ->
     len == 0 ->
     exists f, pulse_fraction ex ey sx sy pulseT = Some f /\ f == 0) /\
  (cTop r < cBottom r ->
   exists pts dot, drawLeaderLine false r sx sy pulseT = Line pts dot).
Proof.
  intros HW. split; [|split; [|split; [|split]]].
  - intros Hx Hy. apply exit_point_above; assumption.
  - intros Hx Hy. apply exit_point_centre; assumption.
  - intros ex ey. apply pulse_dot_defined.
  - intros HP ex ey seg within len Hseg Hlen.
    eapply pulse_fraction_zero_length; eassumption.
  - intros HH. unfold drawLeaderLine.
    destruct (exit_point_defined r sx sy HW HH) as [[ex ey] ->].
    destruct (pulse_dot_defined ex ey sx sy pulseT) as [dot ->].
    eauto.
Qed.

Local Abbreviation r0 := (mkRect 100 100 320 260).

Lemma leader_line_total_on_degenerate_inputs_witness :
  cLeft r0 <= cRight r0 /\ 210 == cCX r0 /\ 50 < cCY r0 /\
  cTop r0 < cBottom r0 /\ 0 <= 0 < 1 /\
  (exists ex ey,
     exit_point r0 210 50 = Some (ex, ey) /\ ex == cCX r0 /\ ey == cTop r0) /\
  (exists f, pulse_fraction 210 100 210 50 0 = Some f /\ f == 0) /\
  (exists pts dot, drawLeaderLine false r0 210 50 0 = Line pts dot).
Proof.
  assert (HW : cLeft r0 <= cRight r0) by (vm_compute; discriminate).
  assert (Hx : 210 == cCX r0) by (vm_compute; reflexivity).
  assert (Hy : 50 < cCY r0) by (vm_compute; reflexivity).
  assert (HH : cTop r0 < cBottom r0) by (vm_compute; reflexivity).
  assert (HP : 0 <= 0 < 1) by (split; [vm_compute; discriminate | reflexivity]).
  destruct (leader_line_total_on_degenerate_inputs r0 210 50 0 HW)
    as (A & _ & _ & F & D).
  split; [exact HW|]. split; [exact Hx|]. split; [exact Hy|].
  split; [exact HH|]. split; [exact HP|].
  split; [apply A; assumption|].
  split; [|apply D; assumption].
  apply (F HP 210 100 Seg1 (0 * totalDist 210 100 210 50)
           (Qabs (midX 210 210 - 210))); [reflexivity | vm_compute; reflexivity].
Defined.

End LeaderClaims.

(** ** Proximity tracker *)

Section TrackerFacts.

Import Machine.
Variable stations : list StationDef.
Variables px py : Q.

Local Abbreviation d := (dist2 px py).
Local Abbreviation within := (fun c : StationDef => d c < sq INTERACT_R).

Lemma nearest_loop (l seen : list StationDef) acc :
  tracker_inv px py seen acc ->
  tracker_inv px py (seen ++ l) (fold_left (nearest_step px py) l acc).
Proof.
  revert seen acc. induction l as [|c l IH]; intros seen acc Hinv; cbn.
  - rewrite app_nil_r. exact Hinv.
  - replace (seen ++ c :: l) with ((seen ++ [c]) ++ l)
      by (rewrite <- app_assoc; reflexivity).
    apply IH. unfold nearest_step.
    destruct acc as [[b|] [m|]]; cbn in Hinv; try contradiction; cbn [snd below].
    + destruct Hinv as [-> (pre & post & -> & Hb & Hpre & Hpost)].
      destruct (Qltb (d c) (sq INTERACT_R)) eqn:W; cbn [andb].
      * apply Qltb_lt in W. destruct (Qltb (d c) (d b)) eqn:E.
        -- apply Qltb_lt in E. split; [reflexivity|].
           exists (pre ++ b :: post), []. repeat split.
           ++ exact W.
           ++ rewrite Forall_app. split.
              ** eapply List.Forall_impl; [|exact Hpre]. cbn.
                 intros a Ha Hok. specialize (Ha Hok). lra.
              ** constructor; [intros _; exact E|].
                 eapply List.Forall_impl; [|exact Hpost]. cbn.
                 intros a Ha Hok. specialize (Ha Hok). lra.
           ++ constructor.
        -- apply Qltb_ge in E. split; [reflexivity|].
           exists pre, (post ++ [c]). repeat split.
           ++ rewrite <- app_assoc. reflexivity.
           ++ exact Hb.
           ++ exact Hpre.
           ++ rewrite Forall_app. split; [exact Hpost|].
              constructor; [intros _; exact E | constructor].
      * apply Qltb_ge in W. split; [reflexivity|].
        exists pre, (post ++ [c]). repeat split.
        -- rewrite <- app_assoc. reflexivity.
        -- exact Hb.
        -- exact Hpre.
        -- rewrite Forall_app. split; [exact Hpost|].
           constructor; [intros Hok; lra | constructor].
    + destruct (Qltb (d c) (sq INTERACT_R)) eqn:W; cbn [andb].
      * apply Qltb_lt in W. split; [reflexivity|].
        exists seen, []. repeat split.
        -- exact W.
        -- eapply List.Forall_impl; [|exact Hinv]. cbn.
           intros a Ha Hok. contradiction.
        -- constructor.
      * apply Qltb_ge in W. cbn. rewrite Forall_app. split; [exact Hinv|].
        constructor; [intros Hok; lra | constructor].
Qed.

(** C7.  The nearest-station query returns the first station of the list at
    which the distance to the player is smallest among the stations strictly
    within the interaction radius, every earlier such station being strictly
    farther; it returns nothing exactly when no station is strictly within
    the radius.  The measure the loop compares is the square of the Euclidean
    distance from the player [(px, py)] to the station's anchor [(x, y)],
    against the square of the radius 88; the same is stated for the Euclidean
    distance itself and the radius. *)
Theorem nearest_is_first_closest_within_radius :
  (forall c, dist2 px py c = (x c - px) * (x c - px) + (y c - py) * (y c - py)) /\
  sq INTERACT_R = 88 * 88 /\ Q2R INTERACT_R = 88%R /\
  match nearest stations px py with
  | Some s =>
      first_argmin_among (fun c => dist2 px py c < sq INTERACT_R)
        (dist2 px py) stations s /\
      first_nearest_within (Q2R INTERACT_R) (station_distance px py) stations s
  | None =>
      Forall (fun c => ~ dist2 px py c < sq INTERACT_R) stations /\
      Forall (fun c => ~ (station_distance px py c < Q2R INTERACT_R)%R) stations
  end.
Proof.
  assert (Hr : 0 <= INTERACT_R) by (vm_compute; discriminate).
  assert (Hin : forall c,
            (station_distance px py c < Q2R INTERACT_R)%R
            <-> dist2 px py c < sq INTERACT_R).
  { intros c. unfold station_distance, dist2, hypot2, sq.
    apply euclid_lt_radius, Hr. }
  split; [reflexivity|]. split; [reflexivity|].
  split. { unfold Q2R, INTERACT_R. cbn. rewrite Rinv_1. apply Rmult_1_r. }
  pose proof (nearest_loop stations [] (None, None)) as H.
  cbn [app] in H. specialize (H (List.Forall_nil _)).
  unfold nearest.
  destruct (fold_left (nearest_step px py) stations (None, None))
    as [[b|] [m|]]; cbn in H |- *; try contradiction.
  - destruct H as [_ H]. split; [exact H|].
    destruct H as (pre & post & E & Hb & Hpre & Hpost).
    exists pre, post. split; [exact E|]. split; [apply Hin, Hb|]. split.
    + eapply List.Forall_impl; [|exact Hpre]. cbn beta. intros a Ha Hw.
      apply Hin in Hw. unfold station_distance. apply euclid_lt.
      exact (Ha Hw).
    + eapply List.Forall_impl; [|exact Hpost]. cbn beta. intros a Ha Hw.
      apply Hin in Hw. unfold station_distance. apply euclid_le.
      exact (Ha Hw).
  - split; [exact H|].
    eapply List.Forall_impl; [|exact H]. cbn beta. intros a Ha Hw.
    apply Ha, Hin, Hw.
Qed.

End TrackerFacts.

(** ** Interaction state machine *)

Section MachineFacts.

Import Machine.
Variable sectionMap : gmap string Section_.
Variable stations : list StationDef.

Lemma same_id_true a o : same_id a o = true <-> o = Some a.
Proof.
  destruct o as [b|]; cbn; [|split; discriminate].
  rewrite String.eqb_eq. split; [intros ->; reflexivity | intros [= ->]; reflexivity].
Qed.

Lemma same_id_false a o : same_id a o = false <-> o <> Some a.
Proof.
  rewrite <- same_id_true. destruct (same_id a o); split; congruence.
Qed.

(** *** What each function leaves alone *)

Lemma onStationInteract_missing i l s :
  sectionMap !! i = None ->
  onStationInteract sectionMap i l s =
    set_console (console s ++ [i]) (set_interactions (interactions s ++ [i]) s).
Proof. intros H. unfold onStationInteract. cbn. rewrite H. reflexivity. Qed.

Lemma onStationInteract_frame i l s :
  lastAutoOpenedId (onStationInteract sectionMap i l s) = lastAutoOpenedId s /\
  interactions (onStationInteract sectionMap i l s) = interactions s ++ [i] /\
  timers (onStationInteract sectionMap i l s) = timers s /\
  leaderPulseT (onStationInteract sectionMap i l s) = leaderPulseT s.
Proof.
  unfold onStationInteract. cbn. destruct (sectionMap !! i); cbn; auto.
Qed.

Lemma onStationInteract_opens i l s sec :
  sectionMap !! i = Some sec ->
  calloutOpen (onStationInteract sectionMap i l s) = true /\
  calloutStationId (onStationInteract sectionMap i l s) = Some i /\
  callout_hidden (dom (onStationInteract sectionMap i l s)) = false /\
  callout_signal_lost (dom (onStationInteract sectionMap i l s)) = false.
Proof.
  intros H. unfold onStationInteract. cbn. rewrite H. cbn. auto.
Qed.

Lemma signal_check_frame px py s :
  calloutOpen (signal_check stations px py s) = calloutOpen s /\
  calloutStationId (signal_check stations px py s) = calloutStationId s /\
  lastAutoOpenedId (signal_check stations px py s) = lastAutoOpenedId s /\
  interactions (signal_check stations px py s) = interactions s /\
  console (signal_check stations px py s) = console s /\
  leaderPulseT (signal_check stations px py s) = leaderPulseT s /\
  callout_hidden (dom (signal_check stations px py s)) = callout_hidden (dom s).
Proof.
  unfold signal_check.
  destruct (calloutOpen s && truthy_id (calloutStationId s)); [|auto 10].
  destruct (find _ stations) as [st|]; [|auto 10].
  destruct (Qltb _ _); [|cbn; auto 10].
  destruct (negb (truthy_string (callout_signal (dom s)))); cbn;
    destruct (callout_signal_lost (dom s)); cbn; auto 10.
Qed.

Lemma signal_check_closed px py s :
  calloutOpen s = false -> signal_check stations px py s = s.
Proof. intros H. unfold signal_check. rewrite H. reflexivity. Qed.

Lemma updateLeaderLine_frame dt s :
  calloutOpen (updateLeaderLine stations dt s) = calloutOpen s /\
  calloutStationId (updateLeaderLine stations dt s) = calloutStationId s /\
  lastAutoOpenedId (updateLeaderLine stations dt s) = lastAutoOpenedId s /\
  interactions (updateLeaderLine stations dt s) = interactions s /\
  console (updateLeaderLine stations dt s) = console s /\
  timers (updateLeaderLine stations dt s) = timers s /\
  callout_hidden (dom (updateLeaderLine stations dt s)) = callout_hidden (dom s) /\
  callout_signal_lost (dom (updateLeaderLine stations dt s))
    = callout_signal_lost (dom s).
Proof.
  unfold updateLeaderLine.
  destruct (negb (calloutOpen s) || negb (truthy_id (calloutStationId s)));
    [cbn; auto 10|].
  destruct (find _ stations); cbn; auto 10.
Qed.

Lemma updateLeaderLine_closed dt s :
  calloutOpen s = false ->
  leaderPulseT (updateLeaderLine stations dt s) = leaderPulseT s.
Proof. intros H. unfold updateLeaderLine. rewrite H. reflexivity. Qed.


Lemma istate_OpenSignalLost s i :
  istate s = OpenSignalLost i ->
  calloutOpen s = true /\ calloutStationId s = Some i /\
  truthy_string i = true /\ callout_signal_lost (dom s) = true.
Proof.
  unfold istate. destruct (calloutStationId s) as [j|]; [|discriminate].
  destruct (calloutOpen s); cbn; [|discriminate].
  destruct (truthy_string j) eqn:T; [|discriminate].
  destruct (callout_signal_lost (dom s)); [|discriminate].
  intros [= ->]. auto.
Qed.

Lemma closeCallout_fields s :
  calloutOpen (closeCallout s) = false /\
  calloutStationId (closeCallout s) = None /\
  lastAutoOpenedId (closeCallout s) = None /\
  callout_signal_lost (dom (closeCallout s)) = false /\
  callout_hidden (dom (closeCallout s)) = true /\
  leaderPulseT (closeCallout s) = leaderPulseT s /\
  interactions (closeCallout s) = interactions s /\
  timers (closeCallout s) = timers s.
Proof. cbn. auto 10. Qed.

(** *** One tick *)

Lemma proximity_fires px py s n :
  nearest stations px py = Some n ->
  lastAutoOpenedId s <> Some (id n) ->
  proximity sectionMap stations px py s =
    onStationInteract sectionMap (id n) (label n)
      (set_lastAutoOpenedId (Some (id n)) (set_nearestSceneStation (Some n) s)).
Proof.
  intros Hn Hl. unfold proximity. rewrite Hn. cbn [lastAutoOpenedId set_nearestSceneStation].
  apply same_id_false in Hl. rewrite Hl. reflexivity.
Qed.

Lemma proximity_stays px py s n :
  nearest stations px py = Some n ->
  lastAutoOpenedId s = Some (id n) ->
  proximity sectionMap stations px py s = set_nearestSceneStation (Some n) s.
Proof.
  intros Hn Hl. unfold proximity. rewrite Hn. cbn [lastAutoOpenedId set_nearestSceneStation].
  apply same_id_true in Hl. rewrite Hl. reflexivity.
Qed.

Lemma proximity_leaves px py s :
  nearest stations px py = None ->
  lastAutoOpenedId (proximity sectionMap stations px py s) = None /\
  interactions (proximity sectionMap stations px py s) = interactions s /\
  calloutOpen (proximity sectionMap stations px py s) = calloutOpen s /\
  calloutStationId (proximity sectionMap stations px py s) = calloutStationId s /\
  dom (proximity sectionMap stations px py s) = dom s /\
  timers (proximity sectionMap stations px py s) = timers s.
Proof.
  intros Hn. unfold proximity. rewrite Hn. cbn.
  destruct (lastAutoOpenedId s) eqn:E; cbn; auto 10.
Qed.

Lemma update_fires px py dt s n :
  nearest stations px py = Some n ->
  lastAutoOpenedId s <> Some (id n) ->
  interactions (update sectionMap stations px py dt s) = interactions s ++ [id n] /\
  lastAutoOpenedId (update sectionMap stations px py dt s) = Some (id n).
Proof.
  intros Hn Hl. unfold update, checkProximity.
  destruct (updateLeaderLine_frame dt
              (signal_check stations px py (proximity sectionMap stations px py s)))
    as (_ & _ & -> & -> & _).
  destruct (signal_check_frame px py (proximity sectionMap stations px py s))
    as (_ & _ & -> & -> & _).
  rewrite (proximity_fires px py s n Hn Hl).
  destruct (onStationInteract_frame (id n) (label n)
              (set_lastAutoOpenedId (Some (id n))
                 (set_nearestSceneStation (Some n) s))) as (-> & -> & _).
  cbn. auto.
Qed.

Lemma update_stays px py dt s n :
  nearest stations px py = Some n ->
  lastAutoOpenedId s = Some (id n) ->
  interactions (update sectionMap stations px py dt s) = interactions s /\
  lastAutoOpenedId (update sectionMap stations px py dt s) = Some (id n).
Proof.
  intros Hn Hl. unfold update, checkProximity.
  destruct (updateLeaderLine_frame dt
              (signal_check stations px py (proximity sectionMap stations px py s)))
    as (_ & _ & -> & -> & _).
  destruct (signal_check_frame px py (proximity sectionMap stations px py s))
    as (_ & _ & -> & -> & _).
  rewrite (proximity_stays px py s n Hn Hl). cbn. auto.
Qed.

Lemma update_leaves px py dt s :
  nearest stations px py = None ->
  interactions (update sectionMap stations px py dt s) = interactions s /\
  lastAutoOpenedId (update sectionMap stations px py dt s) = None.
Proof.
  intros Hn. unfold update, checkProximity.
  destruct (updateLeaderLine_frame dt
              (signal_check stations px py (proximity sectionMap stations px py s)))
    as (_ & _ & -> & -> & _).
  destruct (signal_check_frame px py (proximity sectionMap stations px py s))
    as (_ & _ & -> & -> & _).
  destruct (proximity_leaves px py s Hn) as (-> & -> & _). auto.
Qed.




End MachineFacts.

Section MachineClaims.

Import Machine.
Variable sectionMap : gmap string Section_.
Variable stations : list StationDef.

Local Abbreviation step' := (step sectionMap stations).
Local Abbreviation run' := (run sectionMap stations).
Local Abbreviation update' := (update sectionMap stations).

Lemma run_stays (n : StationDef) (rest : list (Q * Q * Q)) (s : State) :
  Forall (fun t => nearest stations (fst (fst t)) (snd (fst t)) = Some n) rest ->
  lastAutoOpenedId s = Some (id n) ->
  interactions (run' (map tick_of rest) s) = interactions s /\
  lastAutoOpenedId (run' (map tick_of rest) s) = Some (id n).
Proof.
  intros Hall. revert s. induction Hall as [|[[px py] dt] rest Hn _ IH];
    intros s Hl; cbn.
  - auto.
  - cbn in Hn.
    destruct (update_stays sectionMap stations px py dt s n Hn Hl) as [Hi Hl'].
    destruct (IH _ Hl') as [IHi IHl]. unfold run in IHi, IHl.
    rewrite IHi, IHl, Hi. auto.
Qed.

(** C8 (as amended).  Over any run of consecutive frames, with no close and
    no elapsing timer in between, on which the nearest-station query returns
    one and the same station, the interaction (and with it the look-up in the
    content store) fires exactly once, on the entering frame.  It fires again
    after a frame with no station in range; after an explicit close, which
    clears [lastAutoOpenedId]: the next frame on which the station is the
    nearest one in range looks it up again and, when its section exists, the
    callout is open on it; and likewise after a timer that elapses and closes
    the callout. *)
Theorem open_fires_once_while_nearest_is_unchanged
    (n : StationDef) (s : State) (px py dt : Q) (rest : list (Q * Q * Q))
    (qx qy qdt : Q) :
  nearest stations px py = Some n ->
  (lastAutoOpenedId s <> Some (id n) ->
   Forall (fun t => nearest stations (fst (fst t)) (snd (fst t)) = Some n) rest ->
   interactions (run' (Tick px py dt :: map tick_of rest) s)
     = interactions s ++ [id n]) /\
  (nearest stations qx qy = None ->
   interactions (run' [Tick qx qy qdt; Tick px py dt] s)
     = interactions s ++ [id n]) /\
  lastAutoOpenedId (closeCallout s) = None /\
  interactions (run' [Close; Tick px py dt] s) = interactions s ++ [id n] /\
  (forall sec, sectionMap !! id n = Some sec ->
     calloutOpen (run' [Close; Tick px py dt] s) = true /\
     calloutStationId (run' [Close; Tick px py dt] s) = Some (id n) /\
     callout_hidden (dom (run' [Close; Tick px py dt] s)) = false) /\
  (forall captured pending,
     timers s = captured :: pending ->
     calloutStationId s = Some captured ->
     interactions (run' [TimerElapsed; Tick px py dt] s)
       = interactions s ++ [id n]).
Proof.
  intros Hn. split; [|split; [|split; [|split; [|split]]]].
  - intros Hl Hall. cbn [run fold_left step].
    destruct (update_fires sectionMap stations px py dt s n Hn Hl) as [Hi Hl'].
    destruct (run_stays n rest _ Hall Hl') as [Ri _]. unfold run in Ri.
    rewrite Ri, Hi. reflexivity.
  - intros Hq. cbn [run fold_left step].
    destruct (update_leaves sectionMap stations qx qy qdt s Hq) as [Hi Hl].
    assert (Hne : lastAutoOpenedId (update' qx qy qdt s) <> Some (id n))
      by (rewrite Hl; discriminate).
    destruct (update_fires sectionMap stations px py dt _ n Hn Hne) as [Fi _].
    rewrite Fi, Hi. reflexivity.
  - reflexivity.
  - cbn [run fold_left step].
    assert (Hne : lastAutoOpenedId (closeCallout s) <> Some (id n))
      by (cbn; discriminate).
    destruct (update_fires sectionMap stations px py dt _ n Hn Hne) as [Fi _].
    rewrite Fi. reflexivity.
  - intros sec Hsec. cbn [run fold_left step].
    assert (Hne : lastAutoOpenedId (closeCallout s) <> Some (id n))
      by (cbn; discriminate).
    unfold update, checkProximity.
    destruct (updateLeaderLine_frame stations dt
                (signal_check stations px py
                   (proximity sectionMap stations px py (closeCallout s))))
      as (-> & -> & _ & _ & _ & _ & -> & _).
    destruct (signal_check_frame stations px py
                (proximity sectionMap stations px py (closeCallout s)))
      as (-> & -> & _ & _ & _ & _ & ->).
    rewrite (proximity_fires sectionMap stations px py _ n Hn Hne).
    destruct (onStationInteract_opens sectionMap (id n) (label n)
                (set_lastAutoOpenedId (Some (id n))
                   (set_nearestSceneStation (Some n) (closeCallout s))) sec Hsec)
      as (-> & -> & -> & _).
    auto.
  - intros captured pending Ht Hc. cbn [run fold_left step]. rewrite Ht.
    unfold timer_callback. cbn [calloutStationId set_timers].
    apply same_id_true in Hc as Hc'. rewrite Hc'.
    assert (Hne : lastAutoOpenedId (closeCallout (set_timers pending s))
                  <> Some (id n)) by (cbn; discriminate).
    destruct (update_fires sectionMap stations px py dt _ n Hn Hne) as [Fi _].
    rewrite Fi. reflexivity.
Qed.

(** C3 (as amended).  When the proximity check fires an interaction for a
    station whose id has no section, the handler only logs: it opens nothing
    and leaves the sidebar, the page, the pending timers and the pulse phase
    alone.  Of the interaction state just one field differs after the check:
    [lastAutoOpenedId], which the check set to the station's id before
    calling the handler.  With the callout closed the machine stays closed. *)
Theorem missing_section_changes_only_lastAutoOpenedId
    (n : StationDef) (s : State) (px py : Q) :
  nearest stations px py = Some n ->
  lastAutoOpenedId s <> Some (id n) ->
  sectionMap !! id n = None ->
  (forall s0, onStationInteract sectionMap (id n) (label n) s0 =
     set_console (console s0 ++ [id n])
       (set_interactions (interactions s0 ++ [id n]) s0)) /\
  proximity sectionMap stations px py s =
    set_console (console s ++ [id n])
      (set_interactions (interactions s ++ [id n])
         (set_lastAutoOpenedId (Some (id n))
            (set_nearestSceneStation (Some n) s))) /\
  (calloutOpen s = false ->
   checkProximity sectionMap stations px py s =
     proximity sectionMap stations px py s /\
   istate (checkProximity sectionMap stations px py s) = Closed).
Proof.
  intros Hn Hl Hm.
  assert (Hp : proximity sectionMap stations px py s =
    set_console (console s ++ [id n])
      (set_interactions (interactions s ++ [id n])
         (set_lastAutoOpenedId (Some (id n))
            (set_nearestSceneStation (Some n) s)))).
  { rewrite (proximity_fires sectionMap stations px py s n Hn Hl).
    rewrite (onStationInteract_missing sectionMap _ _ _ Hm). reflexivity. }
  split; [|split].
  - intros s0. apply onStationInteract_missing, Hm.
  - exact Hp.
  - intros Hc. unfold checkProximity. rewrite Hp.
    rewrite signal_check_closed by exact Hc.
    split; [reflexivity|].
    unfold istate. cbn. rewrite Hc. destruct (calloutStationId s); reflexivity.
Qed.


End MachineClaims.

(** ** Scenarios on the stations of the source *)

Section MachineScenarios.

Import Machine.

Local Abbreviation paladin :=
  (mkStation "experience-paladin" 600 340 0xFF9F1C "EXP.PALADIN").
Local Abbreviation humana :=
  (mkStation "experience-humana" 200 440 0xFF6B9D "EXP.HUMANA").
Local Abbreviation go := (run sample_sectionMap STATIONS).



(** C3 as the specification words it fails.  With an empty content store, a
    frame at EXP.PALADIN fires an interaction for an id without a section;
    the callout stays closed, yet [lastAutoOpenedId] goes from [null] to the
    station's id. *)
Lemma missing_section_still_sets_lastAutoOpenedId :
  (∅ : gmap string Section_) !! "experience-paladin" = None /\
  nearest STATIONS 600 340 = Some paladin /\
  lastAutoOpenedId init = None /\
  istate (checkProximity ∅ STATIONS 600 340 init) = Closed /\
  lastAutoOpenedId (checkProximity ∅ STATIONS 600 340 init)
    = Some "experience-paladin" /\
  lastAutoOpenedId (checkProximity ∅ STATIONS 600 340 init)
    <> lastAutoOpenedId init.
Proof.
  split; [reflexivity|].
  split; [vm_compute; reflexivity|].
  split; [reflexivity|].
  split; [vm_compute; reflexivity|].
  split; [vm_compute; reflexivity|].
  vm_compute. discriminate.
Qed.

Lemma missing_section_changes_only_lastAutoOpenedId_witness :
  nearest STATIONS 600 340 = Some paladin /\
  lastAutoOpenedId init <> Some (id paladin) /\
  (∅ : gmap string Section_) !! id paladin = None /\
  proximity ∅ STATIONS 600 340 init =
    set_console (console init ++ [id paladin])
      (set_interactions (interactions init ++ [id paladin])
         (set_lastAutoOpenedId (Some (id paladin))
            (set_nearestSceneStation (Some paladin) init))).
Proof.
  assert (H1 : nearest STATIONS 600 340 = Some paladin)
    by (vm_compute; reflexivity).
  assert (H2 : lastAutoOpenedId init <> Some (id paladin))
    by (vm_compute; discriminate).
  assert (H3 : (∅ : gmap string Section_) !! id paladin = None)
    by reflexivity.
  pose proof (missing_section_changes_only_lastAutoOpenedId
                ∅ STATIONS paladin init 600 340 H1 H2 H3) as (_ & W & _).
  split; [exact H1|]. split; [exact H2|]. split; [exact H3|]. exact W.
Defined.

(** C4 as the specification words it fails.  One frame with the callout open
    advances the pulse phase from 0 to 16 * 0.00045; the close leaves it
    there, and so does a later frame with the callout closed. *)
Lemma closeCallout_keeps_pulse_phase :
  leaderPulseT init == 0 /\
  leaderPulseT (go [Tick 600 340 16] init) == 72 # 10000 /\
  leaderPulseT (closeCallout (go [Tick 600 340 16] init)) == 72 # 10000 /\
  ~ leaderPulseT (closeCallout (go [Tick 600 340 16] init))
    == leaderPulseT init /\
  leaderPulseT (go [Tick 600 340 16; Close; Tick 600 80 16] init)
    == 72 # 10000.
Proof.
  split; [reflexivity|].
  split; [vm_compute; reflexivity|].
  split; [vm_compute; reflexivity|].
  split; [vm_compute; discriminate|].
  vm_compute; reflexivity.
Qed.

(** C8 as the specification words it fails.  EXP.HUMANA at (200, 440) and
    EXP.DCFS at (200, 600) are 160 apart, less than twice the radius.  Three
    consecutive frames at (200, 518), (200, 521) and (200, 518) all lie
    inside the radius of EXP.HUMANA, and its interaction fires on the first
    and again on the third, the nearest station having been EXP.DCFS in
    between. *)
Lemma open_fires_twice_inside_one_radius :
  Forall (fun t => dist2 (fst t) (snd t) humana < sq INTERACT_R)
    [(200, 518); (200, 521); (200, 518)] /\
  In humana STATIONS /\
  interactions
    (go [Tick 200 518 16; Tick 200 521 16; Tick 200 518 16] init)
  = ["experience-humana"; "experience-utah-dcfs"; "experience-humana"] /\
  occurrences "experience-humana"
    (interactions
       (go [Tick 200 518 16; Tick 200 521 16; Tick 200 518 16] init)) = 2%nat.
Proof.
  split; [repeat constructor|].
  split; [cbn; tauto|].
  split; vm_compute; reflexivity.
Qed.

Lemma open_fires_once_while_nearest_is_unchanged_witness :
  nearest STATIONS 600 340 = Some paladin /\
  lastAutoOpenedId init <> Some (id paladin) /\
  Forall (fun t => nearest STATIONS (fst (fst t)) (snd (fst t)) = Some paladin)
    [(603, 340, 16); (606, 340, 16)] /\
  interactions
    (go (Tick 600 340 16 :: map tick_of [(603, 340, 16); (606, 340, 16)]) init)
  = interactions init ++ [id paladin].
Proof.
  assert (H1 : nearest STATIONS 600 340 = Some paladin)
    by (vm_compute; reflexivity).
  assert (H2 : lastAutoOpenedId init <> Some (id paladin))
    by (vm_compute; discriminate).
  assert (H3 : Forall (fun t => nearest STATIONS (fst (fst t)) (snd (fst t))
                               = Some paladin)
                 [(603, 340, 16); (606, 340, 16)])
    by (repeat constructor).
  pose proof (open_fires_once_while_nearest_is_unchanged
                sample_sectionMap STATIONS paladin init 600 340 16
                [(603, 340, 16); (606, 340, 16)] 600 80 16 H1)
    as (W & _).
  split; [exact H1|]. split; [exact H2|]. split; [exact H3|].
  exact (W H2 H3).
Defined.

End MachineScenarios.

(** * Further properties of the source *)

(** ** The remainder [% 1] and the pulse phases *)

Section PhaseFacts.

Import Machine.

Lemma mod1_range v : 0 <= v -> 0 <= mod1 v < 1.
Proof.
  intros Hv. unfold mod1, Qtrunc.
  assert (E : Qltb v 0 = false) by (apply Qltb_ge; exact Hv).
  rewrite E.
  pose proof (Qfloor_le v) as Hlo. pose proof (Qlt_floor v) as Hhi.
  rewrite inject_Z_plus in Hhi. change (inject_Z 1) with 1 in Hhi.
  split; lra.
Qed.

Lemma mod1_small v : 0 <= v < 1 -> mod1 v == v.
Proof.
  intros [H0 H1]. unfold mod1, Qtrunc.
  assert (E : Qltb v 0 = false) by (apply Qltb_ge; exact H0).
  rewrite E.
  pose proof (Qfloor_le v) as Hlo. pose proof (Qlt_floor v) as Hhi.
  rewrite inject_Z_plus in Hhi. change (inject_Z 1) with 1 in Hhi.
  assert (Z0 : Qfloor v = 0%Z).
  { assert (A : inject_Z (Qfloor v) < inject_Z 1)
      by (change (inject_Z 1) with 1; lra).
    assert (B : inject_Z (-1) < inject_Z (Qfloor v))
      by (change (inject_Z (-1)) with (-1); lra).
    rewrite <- Zlt_Qlt in A, B. lia. }
  rewrite Z0. change (inject_Z 0) with 0. lra.
Qed.

End PhaseFacts.

(** ** Invariants of the interaction machine *)

Section MachineInvariants.

Import Machine.
Variable sectionMap : gmap string Section_.
Variable stations : list StationDef.

Local Abbreviation step' := (step sectionMap stations).
Local Abbreviation run' := (run sectionMap stations).
Local Abbreviation update' := (update sectionMap stations).
Local Abbreviation ok := (consistent sectionMap stations).

Lemma nearest_Some_inv px py n :
  nearest stations px py = Some n ->
  In n stations /\ dist2 px py n < sq INTERACT_R.
Proof.
  intros Hn.
  pose proof (nearest_loop px py stations [] (None, None)) as H.
  cbn [app] in H. specialize (H (List.Forall_nil _)).
  unfold nearest in Hn.
  destruct (fold_left (nearest_step px py) stations (None, None))
    as [[b|] [m|]]; cbn in H, Hn; try contradiction; try discriminate.
  injection Hn as ->.
  destruct H as (_ & pre & post & -> & Hok & _). split; [|exact Hok].
  apply in_or_app. right. left. reflexivity.
Qed.

Lemma find_station_inv (o : option string) c :
  find (fun c' => same_id (id c') o) stations = Some c ->
  In c stations /\ o = Some (id c).
Proof.
  intros H. apply find_some in H as [Hin Hid].
  split; [exact Hin | apply same_id_true, Hid].
Qed.

Lemma run_app es1 es2 s : run' (es1 ++ es2) s = run' es2 (run' es1 s).
Proof. unfold run. apply fold_left_app. Qed.

Lemma run_invariant (P : State -> Prop) (Q0 : Event -> Prop) :
  (forall s e, Q0 e -> P s -> P (step' s e)) ->
  forall es s, Forall Q0 es -> P s -> P (run' es s).
Proof.
  intros Hstep es. induction es as [|e es IH]; intros s Hall Hs; cbn.
  - exact Hs.
  - inversion Hall; subst. apply IH; [assumption|]. apply Hstep; assumption.
Qed.

Lemma consistent_init : ok init.
Proof.
  unfold consistent. cbn. repeat split; try discriminate; constructor.
Qed.

Lemma consistent_closeCallout s : ok s -> ok (closeCallout s).
Proof.
  intros (_ & _ & _ & _ & Ht & Hc). unfold consistent. cbn.
  repeat split; try discriminate; assumption.
Qed.

Lemma consistent_onStationInteract n s :
  In n stations -> ok s ->
  ok (onStationInteract sectionMap (id n) (label n)
        (set_lastAutoOpenedId (Some (id n))
           (set_nearestSceneStation (Some n) s))).
Proof.
  intros Hin (H1 & H2 & H3 & H4 & Ht & Hc).
  unfold onStationInteract. cbn.
  destruct (sectionMap !! id n) as [sec|] eqn:E; unfold consistent; cbn.
  - repeat split; try discriminate; try assumption.
    + injection H as <-. eauto.
    + injection H as <-. exists n. auto.
  - repeat split; try assumption.
    + apply H4. assumption.
    + apply H4. assumption.
    + rewrite Forall_app. split; [assumption|]. constructor; [exact E|constructor].
Qed.

Lemma consistent_proximity px py s : ok s -> ok (proximity sectionMap stations px py s).
Proof.
  intros Hs. unfold proximity.
  destruct (nearest stations px py) as [n|] eqn:Hn.
  - cbn [lastAutoOpenedId set_nearestSceneStation].
    destruct (same_id (id n) (lastAutoOpenedId s)); cbn [negb].
    + exact Hs.
    + apply consistent_onStationInteract; [|exact Hs].
      apply (nearest_Some_inv px py n Hn).
  - cbn [lastAutoOpenedId set_nearestSceneStation].
    destruct (lastAutoOpenedId s); exact Hs.
Qed.

Lemma consistent_signal_check px py s : ok s -> ok (signal_check stations px py s).
Proof.
  intros Hs. unfold signal_check.
  destruct (calloutOpen s && truthy_id (calloutStationId s)) eqn:Ho; [|exact Hs].
  apply andb_true_iff in Ho as [Ho _].
  destruct (find _ stations) as [st|] eqn:Hf; [|exact Hs].
  apply find_station_inv in Hf as [Hin _].
  destruct Hs as (H1 & H2 & H3 & H4 & Ht & Hc).
  destruct (Qltb (sq SIGNAL_LOST_R) (dist2 px py st)).
  - destruct (negb (truthy_string (callout_signal (dom s)))); cbn;
      destruct (callout_signal_lost (dom s)) eqn:Hsl; cbn;
      unfold consistent; cbn; rewrite ?Hsl;
      repeat split; try assumption; try (intros; assumption);
      try (rewrite Forall_app; split; [assumption|];
           constructor; [exists st; auto | constructor]);
      try (apply H4; assumption).
  - unfold consistent; cbn.
    repeat split; try assumption; try discriminate; apply H4; assumption.
Qed.

Lemma consistent_updateLeaderLine dt s : ok s -> ok (updateLeaderLine stations dt s).
Proof.
  intros Hs. unfold updateLeaderLine.
  destruct (negb (calloutOpen s) || negb (truthy_id (calloutStationId s)));
    [exact Hs|].
  destruct (find _ stations); exact Hs.
Qed.

Lemma consistent_step s e : ok s -> ok (step' s e).
Proof.
  intros Hs. destruct e as [px py dt| |]; cbn [step].
  - unfold update, checkProximity.
    apply consistent_updateLeaderLine, consistent_signal_check,
      consistent_proximity, Hs.
  - apply consistent_closeCallout, Hs.
  - destruct (timers s) as [|captured rest] eqn:Ht; [exact Hs|].
    assert (Hs' : ok (set_timers rest s)).
    { destruct Hs as (H1 & H2 & H3 & H4 & Hts & Hc).
      unfold consistent; cbn. rewrite Ht in Hts. inversion Hts; subst.
      repeat split; try assumption; apply H4; assumption. }
    unfold timer_callback. destruct (same_id captured _); [|exact Hs'].
    apply consistent_closeCallout, Hs'.
Qed.

Lemma consistent_run es s : ok s -> ok (run' es s).
Proof.
  intros Hs.
  apply (run_invariant ok (fun _ => True)); [| |exact Hs].
  - intros s0 e _ H0. apply consistent_step, H0.
  - clear. induction es; constructor; auto.
Qed.

End MachineInvariants.

Section MachineExtras.

Import Machine.
Variable sectionMap : gmap string Section_.
Variable stations : list StationDef.

Lemma is_station_find i :
  is_station stations i ->
  exists c, find (fun c' => same_id (id c') (Some i)) stations = Some c /\
            In c stations /\ id c = i.
Proof.
  intros (c & Hin & Hid).
  destruct (find (fun c' => same_id (id c') (Some i)) stations) as [c'|] eqn:E.
  - exists c'. split; [reflexivity|].
    apply find_station_inv in E as [Hin' Hid']. split; [exact Hin'|].
    congruence.
  - exfalso. pose proof (find_none _ _ E c Hin) as Hc. cbn in Hc.
    rewrite Hid, String.eqb_refl in Hc. discriminate.
Qed.

(** In every state the machine reaches from its initial one, the open flag,
    the id of the shown station and the callout's [hidden] class agree, and
    only an open callout carries the signal-lost mark. *)
Theorem reachable_callout_flags_agree (es : list Event) :
  calloutOpen (run sectionMap stations es init)
    = negb (callout_hidden (dom (run sectionMap stations es init))) /\
  calloutOpen (run sectionMap stations es init)
    = match calloutStationId (run sectionMap stations es init) with
      | Some _ => true
      | None => false
      end /\
  (callout_signal_lost (dom (run sectionMap stations es init)) = true ->
   calloutOpen (run sectionMap stations es init) = true).
Proof.
  destruct (consistent_run sectionMap stations es init
              (consistent_init sectionMap stations))
    as (H1 & H2 & H3 & _).
  auto.
Qed.

(** An open callout always shows a station of the scene whose section is in
    the content store, so the station look-ups of the per-frame updates
    never come back empty. *)
Theorem open_callout_has_section_and_station (es : list Event) (i : string) :
  calloutStationId (run sectionMap stations es init) = Some i ->
  (exists sec, sectionMap !! i = Some sec) /\
  (exists c,
     find (fun c' => same_id (id c')
                       (calloutStationId (run sectionMap stations es init)))
       stations = Some c /\
     In c stations /\ id c = i).
Proof.
  intros Hi.
  destruct (consistent_run sectionMap stations es init
              (consistent_init sectionMap stations))
    as (_ & _ & _ & H4 & _).
  destruct (H4 i Hi) as [Hsec Hst]. split; [exact Hsec|].
  rewrite Hi. apply is_station_find, Hst.
Qed.

(** Every pending delayed close was scheduled for a station of the scene,
    and every id warned about on the console has no section. *)
Theorem pending_timers_and_warnings_are_sound (es : list Event) :
  Forall (is_station stations) (timers (run sectionMap stations es init)) /\
  Forall (fun i => sectionMap !! i = None)
    (console (run sectionMap stations es init)).
Proof.
  destruct (consistent_run sectionMap stations es init
              (consistent_init sectionMap stations))
    as (_ & _ & _ & _ & H5 & H6).
  auto.
Qed.

Lemma proximity_phase px py s :
  leaderPulseT (proximity sectionMap stations px py s) = leaderPulseT s.
Proof.
  unfold proximity. destruct (nearest stations px py) as [n|]; cbn.
  - destruct (same_id (id n) (lastAutoOpenedId s)); cbn [negb]; [reflexivity|].
    destruct (onStationInteract_frame sectionMap (id n) (label n)
                (set_lastAutoOpenedId (Some (id n))
                   (set_nearestSceneStation (Some n) s)))
      as (_ & _ & _ & ->).
    reflexivity.
  - destruct (lastAutoOpenedId s); reflexivity.
Qed.

Lemma phase_step s e :
  nonneg_dt e -> 0 <= leaderPulseT s < 1 ->
  0 <= leaderPulseT (step sectionMap stations s e) < 1.
Proof.
  intros He Hs. destruct e as [px py dt| |]; cbn [step].
  - cbn in He. unfold update.
    assert (Hc : leaderPulseT (checkProximity sectionMap stations px py s)
                 = leaderPulseT s).
    { unfold checkProximity.
      destruct (signal_check_frame stations px py
                  (proximity sectionMap stations px py s))
        as (_ & _ & _ & _ & _ & -> & _).
      apply proximity_phase. }
    unfold updateLeaderLine.
    destruct (negb _ || negb _); [cbn; rewrite Hc; exact Hs|].
    destruct (find _ stations); [|cbn; rewrite Hc; exact Hs].
    cbn. rewrite Hc. apply mod1_range. lra.
  - exact Hs.
  - destruct (timers s) as [|captured rest]; [exact Hs|].
    unfold timer_callback. destruct (same_id captured _); exact Hs.
Qed.

(** The pulse phase of the leader line stays in [0, 1) along every run whose
    frames report a non-negative elapsed time. *)
Theorem leader_pulse_phase_stays_in_unit_interval (es : list Event) :
  Forall nonneg_dt es ->
  0 <= leaderPulseT (run sectionMap stations es init) < 1.
Proof.
  intros Hes.
  apply (run_invariant sectionMap stations
           (fun s => 0 <= leaderPulseT s < 1) nonneg_dt).
  - intros s e He Hs. apply phase_step; assumption.
  - exact Hes.
  - cbn. split; [apply Qle_refl | reflexivity].
Qed.

Lemma nearestScene_onStationInteract i l s :
  nearestSceneStation (onStationInteract sectionMap i l s)
    = nearestSceneStation s.
Proof. unfold onStationInteract. cbn. destruct (sectionMap !! i); reflexivity. Qed.

Lemma nearestScene_signal_check px py s :
  nearestSceneStation (signal_check stations px py s) = nearestSceneStation s.
Proof.
  unfold signal_check.
  destruct (calloutOpen s && truthy_id (calloutStationId s)); [|reflexivity].
  destruct (find _ stations); [|reflexivity].
  destruct (Qltb _ _); [|reflexivity].
  destruct (negb (truthy_string (callout_signal (dom s)))); cbn;
    destruct (callout_signal_lost (dom s)); reflexivity.
Qed.

Lemma nearestScene_updateLeaderLine dt s :
  nearestSceneStation (updateLeaderLine stations dt s) = nearestSceneStation s.
Proof.
  unfold updateLeaderLine. destruct (negb _ || negb _); [reflexivity|].
  destruct (find _ stations); reflexivity.
Qed.

(** After every frame [lastAutoOpenedId] is the id of the nearest station in
    range, or [null] when there is none, whatever it was before; the scene's
    [_nearestSceneStation] is that station. *)
Theorem frame_records_nearest_station (s : State) (px py dt : Q) :
  lastAutoOpenedId (update sectionMap stations px py dt s)
    = option_map id (nearest stations px py) /\
  nearestSceneStation (update sectionMap stations px py dt s)
    = nearest stations px py.
Proof.
  split.
  - destruct (nearest stations px py) as [n|] eqn:Hn; cbn.
    + destruct (same_id (id n) (lastAutoOpenedId s)) eqn:E.
      * apply same_id_true in E.
        apply (update_stays sectionMap stations px py dt s n Hn E).
      * apply same_id_false in E.
        apply (update_fires sectionMap stations px py dt s n Hn E).
    + apply (update_leaves sectionMap stations px py dt s Hn).
  - unfold update, checkProximity.
    rewrite nearestScene_updateLeaderLine, nearestScene_signal_check.
    unfold proximity. destruct (nearest stations px py) as [n|]; cbn.
    + destruct (same_id (id n) (lastAutoOpenedId s)); cbn; [reflexivity|].
      rewrite nearestScene_onStationInteract. reflexivity.
    + destruct (lastAutoOpenedId s); reflexivity.
Qed.

End MachineExtras.

Section MachineTransitions.

Import Machine.
Variable sectionMap : gmap string Section_.
Variable stations : list StationDef.

Lemma istate_Open s i :
  istate s = Open i ->
  calloutOpen s = true /\ calloutStationId s = Some i /\
  truthy_string i = true /\ callout_signal_lost (dom s) = false.
Proof.
  unfold istate. destruct (calloutStationId s) as [j|]; [|discriminate].
  destruct (calloutOpen s); cbn; [|discriminate].
  destruct (truthy_string j) eqn:T; [|discriminate].
  destruct (callout_signal_lost (dom s)); [discriminate|].
  intros [= ->]. auto.
Qed.

Lemma radii_ordered : sq INTERACT_R < sq SIGNAL_LOST_R.
Proof. reflexivity. Qed.

(** The frame on which the player comes into range of a station with a
    section: the callout opens on it (from a closed state or from another
    station's callout alike), shows the section's title and at most the first
    two bullets, the sidebar shows the section, and no close is scheduled. *)
Theorem entering_frame_opens_callout
    (s : State) (n : StationDef) (sec : Section_) (px py dt : Q) :
  nearest stations px py = Some n ->
  lastAutoOpenedId s <> Some (id n) ->
  sectionMap !! id n = Some sec ->
  find (fun c' => same_id (id c') (Some (id n))) stations = Some n ->
  truthy_string (id n) = true ->
  istate (update sectionMap stations px py dt s) = Open (id n) /\
  callout_hidden (dom (update sectionMap stations px py dt s)) = false /\
  callout_title (dom (update sectionMap stations px py dt s)) = title sec /\
  callout_bullets (dom (update sectionMap stations px py dt s))
    = firstn CALLOUT_BULLET_PREVIEW (bullets sec) /\
  callout_label (dom (update sectionMap stations px py dt s))
    = (if truthy_string (label n) then label n else id n) /\
  callout_signal (dom (update sectionMap stations px py dt s)) = "" /\
  sidebar (dom (update sectionMap stations px py dt s)) = Some (id n, sec) /\
  timers (update sectionMap stations px py dt s) = timers s.
Proof.
  intros Hn Hl Hsec Hfind Htr.
  destruct (nearest_Some_inv stations px py n Hn) as [_ Hd].
  assert (Hfar : Qltb (sq SIGNAL_LOST_R) (dist2 px py n) = false).
  { apply Qltb_ge. pose proof radii_ordered. lra. }
  unfold update, checkProximity.
  rewrite (proximity_fires sectionMap stations px py s n Hn Hl).
  unfold onStationInteract. cbn [interactions set_interactions]. rewrite Hsec.
  unfold signal_check. cbn [calloutOpen calloutStationId showCallout
    updateSidebar set_calloutOpen set_calloutStationId set_dom
    set_interactions set_lastAutoOpenedId set_nearestSceneStation truthy_id andb].
  rewrite Htr, Hfind, Hfar.
  unfold updateLeaderLine, showCallout, updateSidebar.
  cbn [calloutOpen calloutStationId dom set_calloutOpen set_calloutStationId
    set_dom set_interactions set_lastAutoOpenedId set_nearestSceneStation
    negb orb truthy_id].
  rewrite Htr, Hfind. cbn [negb orb].
  unfold istate.
  cbn [calloutOpen calloutStationId dom timers callout_hidden
    callout_signal_lost callout_label callout_title callout_bullets
    callout_signal sidebar leader_svg set_calloutOpen set_calloutStationId
    set_dom set_interactions set_lastAutoOpenedId set_nearestSceneStation
    set_leaderPulseT set_hidden set_signal_lost set_signal set_content
    set_sidebar set_leader_svg andb].
  rewrite Htr. repeat split; reflexivity.
Qed.

Lemma callout_signal_updateLeaderLine dt s :
  callout_signal (dom (updateLeaderLine stations dt s)) = callout_signal (dom s).
Proof.
  unfold updateLeaderLine. destruct (negb _ || negb _); [reflexivity|].
  destruct (find _ stations); reflexivity.
Qed.

(** What a frame far from the shown station, and out of range of every
    station, does to an open callout. *)
Lemma far_frame (s : State) (c : StationDef) (i : string) (px py dt : Q) :
  calloutOpen s = true -> calloutStationId s = Some i ->
  truthy_string i = true ->
  find (fun c' => same_id (id c') (Some i)) stations = Some c ->
  sq SIGNAL_LOST_R < dist2 px py c ->
  nearest stations px py = None ->
  calloutOpen (update sectionMap stations px py dt s) = true /\
  calloutStationId (update sectionMap stations px py dt s) = Some i /\
  callout_signal_lost (dom (update sectionMap stations px py dt s)) = true /\
  truthy_string (callout_signal (dom (update sectionMap stations px py dt s)))
    = true /\
  lastAutoOpenedId (update sectionMap stations px py dt s) = None /\
  timers (update sectionMap stations px py dt s)
    = (if callout_signal_lost (dom s) then timers s else timers s ++ [i]).
Proof.
  intros Ho Hi Htr Hfind Hfar Hn.
  destruct (find_station_inv stations (Some i) c Hfind) as [_ Hic].
  injection Hic as Hic.
  apply Qltb_lt in Hfar.
  destruct (proximity_leaves sectionMap stations px py s Hn)
    as (Pl & _ & Po & Pi & Pd & Pt).
  rewrite Ho in Po. rewrite Hi in Pi.
  set (p := proximity sectionMap stations px py s) in *.
  assert (Hq : calloutOpen (signal_check stations px py p) = true /\
               calloutStationId (signal_check stations px py p) = Some i /\
               callout_signal_lost (dom (signal_check stations px py p)) = true /\
               truthy_string (callout_signal (dom (signal_check stations px py p)))
                 = true /\
               lastAutoOpenedId (signal_check stations px py p) = None /\
               timers (signal_check stations px py p)
                 = (if callout_signal_lost (dom s) then timers s
                    else timers s ++ [i])).
  { unfold signal_check. rewrite Po, Pi. cbn [truthy_id andb].
    rewrite Htr, Hfind, Hfar, Pd. rewrite <- Hic.
    destruct (truthy_string (callout_signal (dom s))) eqn:Ts;
      destruct (callout_signal_lost (dom s)) eqn:Sl; cbn;
      repeat (progress (cbn; rewrite ?Sl, ?Ts, ?Pd, ?Pt, ?Po, ?Pi, ?Pl));
      auto 10. }
  destruct Hq as (Q1 & Q2 & Q3 & Q4 & Q5 & Q6).
  unfold update, checkProximity. fold p.
  set (q := signal_check stations px py p) in *.
  destruct (updateLeaderLine_frame stations dt q)
    as (U1 & U2 & U3 & _ & _ & U4 & _ & U5).
  rewrite U1, U2, U3, U4, U5, (callout_signal_updateLeaderLine dt q). auto 10.
Qed.

(** Losing the signal: a frame farther than the signal-lost radius from the
    shown station, and out of range of all stations, marks an open callout
    signal-lost, shows the warning text and schedules exactly one delayed
    close for its station; while the mark is on, further such frames schedule
    nothing more. *)
Theorem signal_loss_schedules_one_close
    (s : State) (c : StationDef) (i : string) (px py dt : Q) :
  find (fun c' => same_id (id c') (Some i)) stations = Some c ->
  sq SIGNAL_LOST_R < dist2 px py c ->
  nearest stations px py = None ->
  (istate s = Open i ->
   istate (update sectionMap stations px py dt s) = OpenSignalLost i /\
   truthy_string (callout_signal (dom (update sectionMap stations px py dt s)))
     = true /\
   timers (update sectionMap stations px py dt s) = timers s ++ [i]) /\
  (istate s = OpenSignalLost i ->
   istate (update sectionMap stations px py dt s) = OpenSignalLost i /\
   timers (update sectionMap stations px py dt s) = timers s).
Proof.
  intros Hfind Hfar Hn. split; intros Hs.
  - destruct (istate_Open s i Hs) as (Ho & Hi & Htr & Hsl).
    destruct (far_frame s c i px py dt Ho Hi Htr Hfind Hfar Hn)
      as (F1 & F2 & F3 & F4 & _ & F6).
    rewrite Hsl in F6. unfold istate. rewrite F1, F2, F3, Htr. auto.
  - destruct (istate_OpenSignalLost s i Hs) as (Ho & Hi & Htr & Hsl).
    destruct (far_frame s c i px py dt Ho Hi Htr Hfind Hfar Hn)
      as (F1 & F2 & F3 & _ & _ & F6).
    rewrite Hsl in F6. unfold istate. rewrite F1, F2, F3, Htr. auto.
Qed.

(** Signal loss runs to a close: from an open callout with no timer pending,
    a far frame followed by the elapsing of the timer it scheduled leaves the
    machine closed, with nothing pending and [lastAutoOpenedId] cleared. *)
Theorem signal_loss_then_timer_closes
    (s : State) (c : StationDef) (i : string) (px py dt : Q) :
  istate s = Open i ->
  timers s = [] ->
  find (fun c' => same_id (id c') (Some i)) stations = Some c ->
  sq SIGNAL_LOST_R < dist2 px py c ->
  nearest stations px py = None ->
  istate (run sectionMap stations [Tick px py dt; TimerElapsed] s) = Closed /\
  calloutOpen (run sectionMap stations [Tick px py dt; TimerElapsed] s) = false /\
  callout_hidden (dom (run sectionMap stations [Tick px py dt; TimerElapsed] s))
    = true /\
  timers (run sectionMap stations [Tick px py dt; TimerElapsed] s) = [] /\
  lastAutoOpenedId (run sectionMap stations [Tick px py dt; TimerElapsed] s)
    = None.
Proof.
  intros Hs Ht Hfind Hfar Hn.
  destruct (istate_Open s i Hs) as (Ho & Hi & Htr & Hsl).
  destruct (far_frame s c i px py dt Ho Hi Htr Hfind Hfar Hn)
    as (_ & F2 & _ & _ & _ & F6).
  rewrite Hsl, Ht in F6. cbn [app] in F6.
  cbn [run fold_left step]. rewrite F6. unfold timer_callback.
  cbn [calloutStationId set_timers]. rewrite F2. cbn [same_id].
  rewrite String.eqb_refl. cbn. auto.
Qed.

Lemma elapse_one_after_close (c : State) (ts : list string) :
  calloutStationId c = None ->
  step sectionMap stations (set_timers ts c) TimerElapsed
    = set_timers (tl ts) c.
Proof.
  intros Hc. destruct ts as [|t0 rest]; cbn; [reflexivity|].
  unfold timer_callback. cbn. rewrite Hc. reflexivity.
Qed.

Lemma elapse_after_close (c : State) (k : nat) (ts : list string) :
  calloutStationId c = None ->
  run sectionMap stations (repeat TimerElapsed k) (set_timers ts c)
    = set_timers (skipn k ts) c.
Proof.
  intros Hc. revert ts. induction k as [|k IH]; intros ts.
  - reflexivity.
  - change (run sectionMap stations (repeat TimerElapsed (S k)) (set_timers ts c))
      with (run sectionMap stations (repeat TimerElapsed k)
              (step sectionMap stations (set_timers ts c) TimerElapsed)).
    rewrite (elapse_one_after_close c ts Hc), IH.
    destruct ts as [|t0 rest]; [destruct k|]; reflexivity.
Qed.

(** An explicit close (Esc, the close button, a click outside) closes the
    callout only: the sidebar keeps its section, and closing again changes
    nothing.  It does not cancel the delayed closes that are pending: they
    stay queued.  Those that elapse before the next frame find the callout's
    station id cleared and change nothing but the queue. *)
Theorem close_keeps_sidebar_and_pending_timers (s : State) (k : nat) :
  sidebar (dom (closeCallout s)) = sidebar (dom s) /\
  closeCallout (closeCallout s) = closeCallout s /\
  timers (closeCallout s) = timers s /\
  run sectionMap stations (repeat TimerElapsed k) (closeCallout s)
    = set_timers (skipn k (timers s)) (closeCallout s).
Proof.
  split; [reflexivity|]. split; [reflexivity|]. split; [reflexivity|].
  change (closeCallout s) with (set_timers (timers s) (closeCallout s)) at 1.
  apply elapse_after_close. reflexivity.
Qed.

Lemma updateLeaderLine_svg dt q :
  leader_svg (dom (updateLeaderLine stations dt q)) =
    (calloutOpen q && truthy_id (calloutStationId q)
     && match find (fun c => same_id (id c) (calloutStationId q)) stations with
        | Some _ => negb (callout_hidden (dom q))
        | None => false
        end).
Proof.
  unfold updateLeaderLine.
  destruct (calloutOpen q); cbn; [|reflexivity].
  destruct (truthy_id (calloutStationId q)); cbn; [|reflexivity].
  destruct (find _ stations); reflexivity.
Qed.

Lemma svg_step s e :
  (leader_svg (dom s) = true -> calloutOpen s = true) ->
  leader_svg (dom (step sectionMap stations s e)) = true ->
  calloutOpen (step sectionMap stations s e) = true.
Proof.
  intros Hs. destruct e as [px py dt| |]; cbn [step].
  - unfold update. rewrite updateLeaderLine_svg.
    destruct (updateLeaderLine_frame stations dt
                (checkProximity sectionMap stations px py s)) as (-> & _).
    intros H. apply andb_true_iff in H as [H _].
    apply andb_true_iff in H as [H _]. exact H.
  - cbn. discriminate.
  - destruct (timers s) as [|captured rest]; [exact Hs|].
    unfold timer_callback. destruct (same_id captured _).
    + cbn. discriminate.
    + exact Hs.
Qed.

(** The leader line is never left on the page without its callout: along
    every run, a line in [#leader-svg] means the callout is open and shown;
    and right after a frame on which the machine is not closed, the line is
    there. *)
Theorem leader_line_shown_only_with_open_callout
    (es : list Event) (px py dt : Q) :
  (leader_svg (dom (run sectionMap stations es init)) = true ->
   calloutOpen (run sectionMap stations es init) = true /\
   callout_hidden (dom (run sectionMap stations es init)) = false) /\
  (istate (run sectionMap stations (es ++ [Tick px py dt]) init) <> Closed ->
   leader_svg (dom (run sectionMap stations (es ++ [Tick px py dt]) init))
     = true).
Proof.
  split.
  - intros H.
    assert (Ho : calloutOpen (run sectionMap stations es init) = true).
    { revert H.
      apply (run_invariant sectionMap stations
               (fun s => leader_svg (dom s) = true -> calloutOpen s = true)
               (fun _ => True)).
      - intros s e _ Hs. apply svg_step, Hs.
      - clear. induction es; constructor; auto.
      - cbn. discriminate. }
    split; [exact Ho|].
    destruct (consistent_run sectionMap stations es init
                (consistent_init sectionMap stations)) as (C1 & _).
    rewrite Ho in C1. destruct (callout_hidden _); [discriminate|reflexivity].
  - rewrite run_app. cbn [run fold_left step].
    change (fold_left (step sectionMap stations) es init)
      with (run sectionMap stations es init).
    set (s := run sectionMap stations es init).
    assert (Cs : consistent sectionMap stations s)
      by apply consistent_run, consistent_init.
    unfold update.
    set (q := checkProximity sectionMap stations px py s).
    assert (Cq : consistent sectionMap stations q)
      by apply consistent_signal_check, consistent_proximity, Cs.
    intros Hopen. rewrite updateLeaderLine_svg.
    destruct (updateLeaderLine_frame stations dt q)
      as (U1 & U2 & _ & _ & _ & _ & _ & U4).
    unfold istate in Hopen. rewrite U1, U2 in Hopen.
    destruct Cq as (C1 & _ & _ & C4 & _).
    destruct (calloutStationId q) as [i|] eqn:Hi; [|contradiction].
    destruct (calloutOpen q) eqn:Ho; cbn in Hopen; [|contradiction].
    destruct (truthy_string i) eqn:Htr; [|contradiction].
    destruct (C4 i eq_refl) as [_ Hst].
    destruct (is_station_find stations i Hst) as (c & Hfind & _).
    cbn [truthy_id andb]. rewrite Htr, Hfind. cbn [andb].
    destruct (callout_hidden (dom q)); [discriminate C1 | reflexivity].
Qed.

End MachineTransitions.

(** ** The pulse phase across a close *)

Section PhaseAcrossClose.

Import Machine.
Variable sectionMap : gmap string Section_.
Variable stations : list StationDef.

Lemma checkProximity_phase px py s :
  leaderPulseT (checkProximity sectionMap stations px py s) = leaderPulseT s.
Proof.
  unfold checkProximity.
  destruct (signal_check_frame stations px py
              (proximity sectionMap stations px py s))
    as (_ & _ & _ & _ & _ & -> & _).
  apply proximity_phase.
Qed.

Lemma update_phase_closed px py dt s :
  calloutOpen (update sectionMap stations px py dt s) = false ->
  leaderPulseT (update sectionMap stations px py dt s) = leaderPulseT s.
Proof.
  unfold update.
  destruct (updateLeaderLine_frame stations dt
              (checkProximity sectionMap stations px py s)) as (-> & _).
  intros Hc. rewrite (updateLeaderLine_closed stations dt _ Hc).
  apply checkProximity_phase.
Qed.

Lemma update_phase_open px py dt s :
  calloutOpen (update sectionMap stations px py dt s) = true ->
  truthy_id (calloutStationId (update sectionMap stations px py dt s)) = true ->
  find (fun c => same_id (id c)
                   (calloutStationId (update sectionMap stations px py dt s)))
    stations <> None ->
  leaderPulseT (update sectionMap stations px py dt s)
    = mod1 (leaderPulseT s + dt * (45 # 100000)).
Proof.
  unfold update.
  destruct (updateLeaderLine_frame stations dt
              (checkProximity sectionMap stations px py s)) as (-> & -> & _).
  intros Ho Ht Hf. unfold updateLeaderLine. rewrite Ho, Ht. cbn [negb orb].
  destruct (find _ stations); [|contradiction].
  cbn. rewrite checkProximity_phase. reflexivity.
Qed.

Lemma closed_run_phase (ts : list (Q * Q * Q)) (s : State) :
  stays_closed sectionMap stations ts s ->
  leaderPulseT (run sectionMap stations (map tick_of ts) s) = leaderPulseT s.
Proof.
  revert s. induction ts as [|[[px py] dt] ts IH]; intros s H.
  - reflexivity.
  - destruct H as [Hc Hrest]. cbn [map run fold_left].
    change (fold_left (step sectionMap stations) (map tick_of ts)
              (step sectionMap stations s (tick_of (px, py, dt))))
      with (run sectionMap stations (map tick_of ts)
              (step sectionMap stations s (tick_of (px, py, dt)))).
    rewrite (IH _ Hrest). cbn [tick_of step] in Hc |- *.
    apply update_phase_closed, Hc.
Qed.

(** C4 (as amended).  An explicit close resets [calloutOpen],
    [calloutStationId] and [lastAutoOpenedId] and takes the signal-lost mark
    off the hidden callout, so the machine is closed; the pulse phase of the
    leader line is not reset.  It keeps its value through the close; every
    frame that ends with the callout closed leaves it as it was, so it is
    unchanged through any run of frames after the close on which the callout
    stays closed; and a frame that ends with the callout open on a station
    of the scene advances it from the value it had, so at the next open the
    phase resumes from its value before the close. *)
Theorem closeCallout_resets_all_but_pulse_phase
    (s s0 : State) (px py dt : Q) (ts : list (Q * Q * Q)) :
  calloutOpen (closeCallout s) = false /\
  calloutStationId (closeCallout s) = None /\
  lastAutoOpenedId (closeCallout s) = None /\
  callout_signal_lost (dom (closeCallout s)) = false /\
  callout_hidden (dom (closeCallout s)) = true /\
  istate (closeCallout s) = Closed /\
  leaderPulseT (closeCallout s) = leaderPulseT s /\
  leaderPulseT (updateLeaderLine stations dt (closeCallout s)) = leaderPulseT s /\
  (calloutOpen (update sectionMap stations px py dt s0) = false ->
   leaderPulseT (update sectionMap stations px py dt s0) = leaderPulseT s0) /\
  (stays_closed sectionMap stations ts (closeCallout s) ->
   leaderPulseT (run sectionMap stations (map tick_of ts) (closeCallout s))
     = leaderPulseT s) /\
  (calloutOpen (update sectionMap stations px py dt s0) = true ->
   truthy_id (calloutStationId (update sectionMap stations px py dt s0)) = true ->
   find (fun c => same_id (id c)
                    (calloutStationId (update sectionMap stations px py dt s0)))
     stations <> None ->
   leaderPulseT (update sectionMap stations px py dt s0)
     = mod1 (leaderPulseT s0 + dt * (45 # 100000))) /\
  (stays_closed sectionMap stations ts (closeCallout s) ->
   calloutOpen (run sectionMap stations (map tick_of ts ++ [Tick px py dt])
                  (closeCallout s)) = true ->
   truthy_id (calloutStationId
                (run sectionMap stations (map tick_of ts ++ [Tick px py dt])
                   (closeCallout s))) = true ->
   find (fun c => same_id (id c)
                    (calloutStationId
                       (run sectionMap stations
                          (map tick_of ts ++ [Tick px py dt]) (closeCallout s))))
     stations <> None ->
   leaderPulseT (run sectionMap stations (map tick_of ts ++ [Tick px py dt])
                   (closeCallout s))
     = mod1 (leaderPulseT s + dt * (45 # 100000))).
Proof.
  do 8 (split; [reflexivity|]).
  split; [apply update_phase_closed|].
  split; [intros H; rewrite (closed_run_phase ts _ H); reflexivity|].
  split; [apply update_phase_open|].
  intros Hc. rewrite run_app. cbn [run fold_left step].
  change (fold_left (step sectionMap stations) (map tick_of ts) (closeCallout s))
    with (run sectionMap stations (map tick_of ts) (closeCallout s)).
  intros Ho Ht Hf.
  rewrite (update_phase_open _ _ _ _ Ho Ht Hf).
  rewrite (closed_run_phase ts _ Hc). reflexivity.
Qed.

End PhaseAcrossClose.

Section PhaseAcrossCloseWitness.

Import Machine.

Lemma closeCallout_resets_all_but_pulse_phase_witness :
  stays_closed sample_sectionMap STATIONS [(600, 80, 16); (600, 83, 16)]
    (closeCallout (run sample_sectionMap STATIONS [Tick 600 340 16] init)) /\
  leaderPulseT (run sample_sectionMap STATIONS [Tick 600 340 16] init)
    == 72 # 10000 /\
  leaderPulseT
    (run sample_sectionMap STATIONS
       (map tick_of [(600, 80, 16); (600, 83, 16)])
       (closeCallout (run sample_sectionMap STATIONS [Tick 600 340 16] init)))
    = leaderPulseT (run sample_sectionMap STATIONS [Tick 600 340 16] init) /\
  leaderPulseT
    (run sample_sectionMap STATIONS
       (map tick_of [(600, 80, 16); (600, 83, 16)] ++ [Tick 600 340 16])
       (closeCallout (run sample_sectionMap STATIONS [Tick 600 340 16] init)))
    = mod1 (leaderPulseT (run sample_sectionMap STATIONS [Tick 600 340 16] init)
            + 16 * (45 # 100000)).
Proof.
  assert (H1 : stays_closed sample_sectionMap STATIONS
                 [(600, 80, 16); (600, 83, 16)]
                 (closeCallout
                    (run sample_sectionMap STATIONS [Tick 600 340 16] init)))
    by (vm_compute; auto).
  destruct (closeCallout_resets_all_but_pulse_phase sample_sectionMap STATIONS
              (run sample_sectionMap STATIONS [Tick 600 340 16] init) init
              600 340 16 [(600, 80, 16); (600, 83, 16)])
    as (_ & _ & _ & _ & _ & _ & _ & _ & _ & W1 & _ & W2).
  split; [exact H1|].
  split; [vm_compute; reflexivity|].
  split; [exact (W1 H1)|].
  apply (W2 H1).
  - vm_compute; reflexivity.
  - vm_compute; reflexivity.
  - vm_compute; discriminate.
Defined.

End PhaseAcrossCloseWitness.

(** ** More on the placement *)

Section PlacementExtras.

Import Placement.
Variables OFF PAD sx sy px py cw ch gaW gaH : Q.

Lemma best_first_argmax :
  first_argmax (centre_dist2 px py cw ch)
    (pool OFF PAD sx sy cw ch gaW gaH)
    (best OFF PAD sx sy px py cw ch gaW gaH).
Proof.
  unfold best.
  destruct (pool OFF PAD sx sy cw ch gaW gaH) as [|c l] eqn:E.
  - exfalso. exact (pool_nonempty OFF PAD sx sy cw ch gaW gaH E).
  - apply select_from_first_argmax.
Qed.

Lemma best_in_pool :
  In (best OFF PAD sx sy px py cw ch gaW gaH)
     (pool OFF PAD sx sy cw ch gaW gaH).
Proof.
  destruct best_first_argmax as (pre & post & -> & _).
  apply in_or_app. right. left. reflexivity.
Qed.

Lemma best_farthest c :
  In c (pool OFF PAD sx sy cw ch gaW gaH) ->
  centre_dist2 px py cw ch c
  <= centre_dist2 px py cw ch (best OFF PAD sx sy px py cw ch gaW gaH).
Proof.
  destruct best_first_argmax as (pre & post & -> & Hpre & Hpost).
  intros Hin. apply in_app_or in Hin as [Hin|[<-|Hin]].
  - rewrite List.Forall_forall in Hpre. apply Qlt_le_weak, Hpre, Hin.
  - apply Qle_refl.
  - rewrite List.Forall_forall in Hpost. apply Hpost, Hin.
Qed.

Lemma pool_in_candidates c :
  In c (pool OFF PAD sx sy cw ch gaW gaH) -> In c (candidates OFF sx sy cw ch).
Proof.
  destruct (pool_cases OFF PAD sx sy cw ch gaW gaH) as [[_ ->]|[_ ->]].
  - auto.
  - unfold fits. intros H. apply filter_In in H. apply H.
Qed.

Lemma fit_best :
  fits OFF PAD sx sy cw ch gaW gaH <> [] ->
  fitsb PAD cw ch gaW gaH (best OFF PAD sx sy px py cw ch gaW gaH) = true.
Proof.
  intros Hne. pose proof best_in_pool as Hin.
  destruct (pool_cases OFF PAD sx sy cw ch gaW gaH) as [[E _]|[_ E]];
    [contradiction|].
  rewrite E in Hin. unfold fits in Hin. apply filter_In in Hin. apply Hin.
Qed.

Lemma clamp_id v hi : PAD <= v -> v <= hi -> clamp PAD v hi == v.
Proof.
  intros H1 H2. unfold clamp.
  rewrite Q.max_r by (apply Q.min_glb; lra).
  apply Q.min_l. exact H2.
Qed.

(** When at least one candidate fits the padded viewport, the chosen
    candidate is one that fits and the clamp does not move it: the callout is
    placed at the candidate's own origin. *)
Theorem fitting_candidate_is_placed_unclamped :
  fits OFF PAD sx sy cw ch gaW gaH <> [] ->
  In (best OFF PAD sx sy px py cw ch gaW gaH) (candidates OFF sx sy cw ch) /\
  fitsb PAD cw ch gaW gaH (best OFF PAD sx sy px py cw ch gaW gaH) = true /\
  clampedLeft OFF PAD sx sy px py cw ch gaW gaH
    == left (best OFF PAD sx sy px py cw ch gaW gaH) /\
  clampedTop OFF PAD sx sy px py cw ch gaW gaH
    == top (best OFF PAD sx sy px py cw ch gaW gaH).
Proof.
  intros Hne. pose proof (fit_best Hne) as Hfit.
  split; [apply pool_in_candidates, best_in_pool|].
  split; [exact Hfit|].
  apply fitsb_spec in Hfit. destruct Hfit as (F1 & F2 & F3 & F4).
  unfold clampedLeft, clampedTop. split; apply clamp_id; lra.
Qed.

(** When a candidate fits, the callout keeps exactly the offset clear of the
    station on both axes; with a positive offset the station's abscissa is
    never within the callout's horizontal extent, nor its ordinate within the
    vertical one. *)
Theorem fitting_callout_keeps_offset_from_station :
  fits OFF PAD sx sy cw ch gaW gaH <> [] ->
  (clampedLeft OFF PAD sx sy px py cw ch gaW gaH == sx + OFF \/
   clampedLeft OFF PAD sx sy px py cw ch gaW gaH + cw == sx - OFF) /\
  (clampedTop OFF PAD sx sy px py cw ch gaW gaH == sy + OFF \/
   clampedTop OFF PAD sx sy px py cw ch gaW gaH + ch == sy - OFF) /\
  (0 < OFF ->
   ~ (clampedLeft OFF PAD sx sy px py cw ch gaW gaH <= sx
      <= clampedLeft OFF PAD sx sy px py cw ch gaW gaH + cw) /\
   ~ (clampedTop OFF PAD sx sy px py cw ch gaW gaH <= sy
      <= clampedTop OFF PAD sx sy px py cw ch gaW gaH + ch)).
Proof.
  intros Hne. pose proof (fit_best Hne) as Hfit.
  apply fitsb_spec in Hfit. destruct Hfit as (F1 & F2 & F3 & F4).
  assert (HL : clampedLeft OFF PAD sx sy px py cw ch gaW gaH
               == left (best OFF PAD sx sy px py cw ch gaW gaH))
    by (apply clamp_id; lra).
  assert (HT : clampedTop OFF PAD sx sy px py cw ch gaW gaH
               == top (best OFF PAD sx sy px py cw ch gaW gaH))
    by (apply clamp_id; lra).
  pose proof (pool_in_candidates _ best_in_pool) as Hin.
  clear F1 F2 F3 F4.
  cbn in Hin. destruct Hin as [E|[E|[E|[E|[]]]]]; rewrite <- E in HL, HT;
    cbn [left top] in HL, HT; (split; [|split]);
    try (intros HO; split; intros [A B]); lra.
Qed.

End PlacementExtras.

Section PlacementSides.

Import Placement.
Variables OFF PAD sx sy px py cw ch gaW gaH : Q.

Lemma all_fit_pool :
  forallb (fitsb PAD cw ch gaW gaH) (candidates OFF sx sy cw ch) = true ->
  pool OFF PAD sx sy cw ch gaW gaH = candidates OFF sx sy cw ch.
Proof.
  intros H. unfold pool, fits. cbn in H |- *.
  repeat (apply andb_true_iff in H as [? H]).
  repeat match goal with E : fitsb _ _ _ _ _ _ = true |- _ => rewrite E; clear E end.
  reflexivity.
Qed.

(** The callout goes to the side away from the player: when all four
    candidates fit, a player left of the station gets a candidate right of
    it, a player right of it one on the left, a player above it one below,
    and a player below it one above. *)
Theorem all_fit_places_callout_away_from_player :
  forallb (fitsb PAD cw ch gaW gaH) (candidates OFF sx sy cw ch) = true ->
  0 <= OFF -> 0 < cw -> 0 < ch ->
  (px < sx -> left (best OFF PAD sx sy px py cw ch gaW gaH) == sx + OFF) /\
  (sx < px -> left (best OFF PAD sx sy px py cw ch gaW gaH) == sx - cw - OFF) /\
  (py < sy -> top (best OFF PAD sx sy px py cw ch gaW gaH) == sy + OFF) /\
  (sy < py -> top (best OFF PAD sx sy px py cw ch gaW gaH) == sy - ch - OFF).
Proof.
  intros Hall HO Hcw Hch.
  pose proof (all_fit_pool Hall) as Hpool.
  pose proof (best_in_pool OFF PAD sx sy px py cw ch gaW gaH) as Hin.
  pose proof (best_farthest OFF PAD sx sy px py cw ch gaW gaH) as Hfar.
  rewrite Hpool in Hin, Hfar.
  assert (HTR := Hfar _ (or_introl eq_refl)).
  assert (HTL := Hfar _ (or_intror (or_introl eq_refl))).
  assert (HBR := Hfar _ (or_intror (or_intror (or_introl eq_refl)))).
  assert (HBL := Hfar _ (or_intror (or_intror (or_intror (or_introl eq_refl))))).
  clear Hfar Hpool Hall.
  cbn in Hin.
  destruct Hin as [E|[E|[E|[E|[]]]]]; rewrite <- E in *; clear E;
    unfold centre_dist2, hypot2 in *; cbn [left top] in *;
    unfold Qdiv in *; change (/ 2) with (1 # 2) in *;
    repeat split; intros Hp; try lra; exfalso; nra.
Qed.

End PlacementSides.

(** ** More on the leader line *)

Section LeaderExtras.

Import Leader.

Ltac halves := unfold Qdiv in *; change (/ 2) with (1 # 2) in *.

Lemma sign_pos v : 0 < v -> sign v = 1.
Proof.
  intros H. assert (E : (v ?= 0) = Gt) by (apply Qgt_alt; exact H).
  unfold sign. rewrite E. reflexivity.
Qed.

Lemma Qabs_bounds v : - Qabs v <= v <= Qabs v.
Proof.
  destruct (Qlt_le_dec v 0) as [Hn|Hp].
  - rewrite Qabs_neg by lra. lra.
  - rewrite Qabs_pos by lra. lra.
Qed.

(** [d * (n / e)] stays within [m] as soon as [|d| * n <= e * m]. *)
Lemma ratio_bound (d e n m : Q) :
  0 < e -> 0 <= n -> Qabs d * n <= e * m ->
  - m <= d * (n / e) <= m.
Proof.
  intros He Hn H.
  set (t := n / e).
  assert (Ht : t * e == n) by (unfold t; field; lra).
  assert (Ht0 : 0 <= t).
  { unfold t. apply Qle_shift_div_l; [exact He | lra]. }
  pose proof (Qabs_bounds d) as [B1 B2].
  pose proof (Qabs_nonneg d) as B0.
  assert (Hm : Qabs d * t <= m).
  { apply Qmult_le_l with (z := e); [exact He|].
    assert (E1 : e * (Qabs d * t) == Qabs d * n) by (rewrite <- Ht; ring).
    rewrite E1. exact H. }
  assert (U1 : d * t <= Qabs d * t) by (apply Qmult_le_compat_r; assumption).
  assert (U2 : - Qabs d * t <= d * t) by (apply Qmult_le_compat_r; assumption).
  split; lra.
Qed.

Lemma exit_point_border (r : Rect) (sx sy : Q) :
  cLeft r < cRight r -> cTop r < cBottom r ->
  exists e, exit_point r sx sy = Some e /\ on_border r e.
Proof.
  intros HW HH. unfold exit_point, on_border. cbv zeta.
  set (dx := sx - cCX r). set (dy := sy - cCY r).
  destruct (Qeq_bool (Qabs dx) 0 && Qeq_bool (Qabs dy) 0) eqn:Z.
  { eexists. split; [reflexivity|]. cbn [fst snd]. unfold cCX. halves.
    repeat split; try lra; right; right; left; reflexivity. }
  set (hw := (cRight r - cLeft r) / 2). set (hh := (cBottom r - cTop r) / 2).
  assert (Hhw : 0 < hw) by (unfold hw; halves; lra).
  assert (Hhh : 0 < hh) by (unfold hh; halves; lra).
  assert (EL : cCX r - hw == cLeft r) by (unfold cCX, hw; halves; lra).
  assert (ER : cCX r + hw == cRight r) by (unfold cCX, hw; halves; lra).
  assert (ET : cCY r - hh == cTop r) by (unfold cCY, hh; halves; lra).
  assert (EB : cCY r + hh == cBottom r) by (unfold cCY, hh; halves; lra).
  pose proof (Qabs_nonneg dx) as Ax. pose proof (Qabs_nonneg dy) as Ay.
  destruct (Qltb (Qabs dy * hw) (Qabs dx * hh)) eqn:B.
  - apply Qltb_lt in B.
    assert (N : 0 < Qabs dx).
    { destruct (Qeq_dec (Qabs dx) 0) as [E|E]; [|lra].
      rewrite E in B.
      assert (0 <= Qabs dy * hw) by (apply Qmult_le_0_compat; lra). lra. }
    assert (N' : ~ Qabs dx == 0) by lra.
    rewrite (jsdiv_some _ _ N').
    eexists. split; [reflexivity|]. cbn [fst snd].
    destruct (ratio_bound dy (Qabs dx) hw hh N (Qlt_le_weak _ _ Hhw)
                (Qlt_le_weak _ _ B)) as [R1 R2].
    destruct (Qlt_le_dec dx 0) as [Hn|Hp].
    + rewrite (sign_neg _ Hn). repeat split; try lra; left; lra.
    + assert (Hp' : 0 < dx).
      { destruct (Qeq_dec dx 0) as [E|E]; [|lra].
        exfalso. apply N'. rewrite E. reflexivity. }
      rewrite (sign_pos _ Hp'). repeat split; try lra; right; left; lra.
  - apply Qltb_ge in B.
    assert (N : 0 < Qabs dy).
    { destruct (Qeq_dec (Qabs dy) 0) as [E|E]; [|lra].
      exfalso. rewrite E in B.
      assert (Hx : Qabs dx == 0).
      { destruct (Qeq_dec (Qabs dx) 0) as [E0|E0]; [exact E0|].
        assert (0 < Qabs dx) by lra.
        assert (0 < Qabs dx * hh) by (apply Qmult_lt_0_compat; assumption).
        lra. }
      assert (Z' : Qeq_bool (Qabs dx) 0 && Qeq_bool (Qabs dy) 0 = true).
      { apply andb_true_iff. split; apply Qeq_bool_iff; assumption. }
      congruence. }
    assert (N' : ~ Qabs dy == 0) by lra.
    rewrite (jsdiv_some _ _ N').
    eexists. split; [reflexivity|]. cbn [fst snd].
    assert (B' : Qabs dx * hh <= Qabs dy * hw) by exact B.
    destruct (ratio_bound dx (Qabs dy) hh hw N (Qlt_le_weak _ _ Hhh) B')
      as [R1 R2].
    destruct (Qlt_le_dec dy 0) as [Hn|Hp].
    + rewrite (sign_neg _ Hn). repeat split; try lra; right; right; left; lra.
    + assert (Hp' : 0 < dy).
      { destruct (Qeq_dec dy 0) as [E|E]; [|lra].
        exfalso. apply N'. rewrite E. reflexivity. }
      rewrite (sign_pos _ Hp'). repeat split; try lra; right; right; right; lra.
Qed.

(** The exit point lies on the callout's border, wherever the station is. *)
Theorem exit_point_on_border (r : Rect) (sx sy : Q) :
  cLeft r < cRight r -> cTop r < cBottom r ->
  exists e, exit_point r sx sy = Some e /\ on_border r e.
Proof. apply exit_point_border. Qed.

End LeaderExtras.

Section LeaderPath.

Import Leader.

Lemma Qabs_half v : Qabs (v * (1 # 2)) == Qabs v * (1 # 2).
Proof.
  destruct (Qlt_le_dec v 0) as [Hn|Hp].
  - rewrite (Qabs_neg v) by lra. rewrite Qabs_neg by lra. ring.
  - rewrite (Qabs_pos v) by lra. rewrite Qabs_pos by lra. ring.
Qed.

Lemma seg1_half ex sx : Qabs (midX ex sx - ex) == Qabs (sx - ex) * (1 # 2).
Proof.
  unfold midX. rewrite <- Qabs_half. apply Qabs_wd. ring.
Qed.

Lemma seg3_half ex sx : Qabs (sx - midX ex sx) == Qabs (sx - ex) * (1 # 2).
Proof.
  unfold midX. rewrite <- Qabs_half. apply Qabs_wd. ring.
Qed.

(** The leader line is an elbow: four points from the exit point to the
    station, every segment horizontal or vertical, and its length is the
    horizontal plus the vertical distance between the two ends. *)
Theorem polyline_is_orthogonal_of_manhattan_length (ex ey sx sy : Q) :
  length (polyline ex ey sx sy) = 4%nat /\
  head (polyline ex ey sx sy) = Some (ex, ey) /\
  last (polyline ex ey sx sy) = Some (sx, sy) /\
  orthogonal (polyline ex ey sx sy) /\
  totalDist ex ey sx sy == Qabs (sx - ex) + Qabs (sy - ey).
Proof.
  split; [reflexivity|]. split; [reflexivity|]. split; [reflexivity|].
  split.
  - cbn. repeat split; auto; (left; reflexivity) || (right; reflexivity).
  - unfold totalDist. rewrite seg1_half, seg3_half. ring.
Qed.

(** At phase 0 the pulse dot sits on the exit point. *)
Theorem pulse_dot_starts_at_exit_point (ex ey sx sy : Q) :
  exists x y,
    pulse_dot ex ey sx sy 0 = Some (x, y) /\ x == ex /\ y == ey.
Proof.
  unfold pulse_dot. cbv zeta.
  assert (B : Qle_bool (0 * totalDist ex ey sx sy) (Qabs (midX ex sx - ex)) = true).
  { apply Qle_bool_iff. pose proof (Qabs_nonneg (midX ex sx - ex)). lra. }
  rewrite B.
  rewrite (jsdiv_some _ _ (or_default_nonzero (Qabs (midX ex sx - ex)))).
  eexists _, _. split; [reflexivity|]. split; [|reflexivity].
  unfold Qdiv. ring.
Qed.

Lemma fraction_bounds within seg :
  0 <= within <= seg ->
  exists f, jsdiv within (or_default seg 1) = Some f /\ 0 <= f <= 1.
Proof.
  intros [H0 H1].
  rewrite (jsdiv_some _ _ (or_default_nonzero seg)).
  eexists. split; [reflexivity|].
  destruct (Qeq_dec seg 0) as [E|E].
  - rewrite (or_default_zero _ E).
    assert (W : within == 0) by lra. rewrite W. split.
    + unfold Qle; simpl; lia.
    + unfold Qle; simpl; lia.
  - assert (Hd : or_default seg 1 = seg).
    { unfold or_default. destruct (Qeq_bool seg 0) eqn:B; [|reflexivity].
      apply Qeq_bool_iff in B. contradiction. }
    rewrite Hd. assert (0 < seg) by lra. split.
    + apply Qle_shift_div_l; [assumption | lra].
    + apply Qle_shift_div_r; [assumption | lra].
Qed.

Lemma between_lerp a b f : 0 <= f <= 1 -> between a b (a + (b - a) * f).
Proof.
  intros [F0 F1]. unfold between.
  destruct (Qlt_le_dec b a) as [Hlt|Hle].
  - rewrite Q.min_r, Q.max_l by lra. split; nra.
  - rewrite Q.min_l, Q.max_r by lra. split; nra.
Qed.

Lemma pulse_dot_on_segments (ex ey sx sy pulseT : Q) :
  0 <= pulseT <= 1 ->
  exists x y,
    pulse_dot ex ey sx sy pulseT = Some (x, y) /\
    ((y == ey /\ between ex (midX ex sx) x) \/
     (x == midX ex sx /\ between ey sy y) \/
     (y == sy /\ between (midX ex sx) sx x)).
Proof.
  intros [P0 P1]. unfold pulse_dot. cbv zeta. unfold totalDist.
  set (s1 := Qabs (midX ex sx - ex)). set (s2 := Qabs (sy - ey)).
  set (s3 := Qabs (sx - midX ex sx)).
  assert (H1 : 0 <= s1) by apply Qabs_nonneg.
  assert (H2 : 0 <= s2) by apply Qabs_nonneg.
  assert (H3 : 0 <= s3) by apply Qabs_nonneg.
  assert (T0 : 0 <= pulseT * (s1 + s2 + s3))
    by (apply Qmult_le_0_compat; lra).
  assert (T1 : pulseT * (s1 + s2 + s3) <= s1 + s2 + s3).
  { apply Qle_trans with (1 * (s1 + s2 + s3)); [|lra].
    apply Qmult_le_compat_r; lra. }
  destruct (Qle_bool (pulseT * (s1 + s2 + s3)) s1) eqn:B1.
  - apply Qle_bool_iff in B1.
    destruct (fraction_bounds (pulseT * (s1 + s2 + s3)) s1) as (f & -> & Hf);
      [lra|].
    eexists _, _. split; [reflexivity|]. left.
    split; [reflexivity | apply between_lerp, Hf].
  - apply Qle_bool_gt in B1.
    destruct (Qle_bool (pulseT * (s1 + s2 + s3)) (s1 + s2)) eqn:B2.
    + apply Qle_bool_iff in B2.
      destruct (fraction_bounds (pulseT * (s1 + s2 + s3) - s1) s2)
        as (f & -> & Hf); [lra|].
      eexists _, _. split; [reflexivity|]. right. left.
      split; [reflexivity | apply between_lerp, Hf].
    + apply Qle_bool_gt in B2.
      destruct (fraction_bounds (pulseT * (s1 + s2 + s3) - s1 - s2) s3)
        as (f & -> & Hf); [lra|].
      eexists _, _. split; [reflexivity|]. right. right.
      split; [reflexivity | apply between_lerp, Hf].
Qed.

(** For a phase in [0, 1] the pulse dot lies on the polyline: on the first
    horizontal segment, on the vertical one, or on the last horizontal one. *)
Theorem pulse_dot_lies_on_polyline (ex ey sx sy pulseT : Q) :
  0 <= pulseT <= 1 ->
  exists x y,
    pulse_dot ex ey sx sy pulseT = Some (x, y) /\
    ((y == ey /\ between ex (midX ex sx) x) \/
     (x == midX ex sx /\ between ey sy y) \/
     (y == sy /\ between (midX ex sx) sx x)).
Proof. apply pulse_dot_on_segments. Qed.

(** The drawing as a whole: for a shown callout of positive size, any
    station and any phase in [0, 1], [drawLeaderLine] draws an elbow that
    starts on the callout's border and ends on the station, with the pulse
    dot on one of its three segments. *)
Theorem leader_line_joins_border_to_station (r : Rect) (sx sy pulseT : Q) :
  cLeft r < cRight r -> cTop r < cBottom r -> 0 <= pulseT <= 1 ->
  exists ex ey x y,
    drawLeaderLine false r sx sy pulseT
      = Line (polyline ex ey sx sy) (x, y) /\
    on_border r (ex, ey) /\
    head (polyline ex ey sx sy) = Some (ex, ey) /\
    last (polyline ex ey sx sy) = Some (sx, sy) /\
    ((y == ey /\ between ex (midX ex sx) x) \/
     (x == midX ex sx /\ between ey sy y) \/
     (y == sy /\ between (midX ex sx) sx x)).
Proof.
  intros HW HH HP. unfold drawLeaderLine.
  destruct (exit_point_border r sx sy HW HH) as ([ex ey] & -> & Hb).
  destruct (pulse_dot_on_segments ex ey sx sy pulseT HP) as (x & y & -> & Hd).
  exists ex, ey, x, y. repeat split; try reflexivity; try apply Hb. exact Hd.
Qed.

End LeaderPath.

(** ** Movement *)

Section MovementFacts.

Import Movement.

(** The probe never moves faster than [PLAYER_SPEED], on a diagonal either:
    the squared length of the velocity is at most the square of the speed. *)
Theorem velocity_never_exceeds_player_speed (k : Keys) :
  hypot2 (fst (handleMovement k)) (snd (handleMovement k)) <= sq PLAYER_SPEED.
Proof.
  destruct k as [[] [] [] [] [] [] [] []]; vm_compute; discriminate.
Qed.

(** Opposite keys do not cancel: right wins over left and down over up; with
    no key of an axis held the probe does not move along it. *)
Theorem opposite_keys_right_and_down_win (k : Keys) :
  (cursors_right k || wasd_right k = true -> 0 < fst (handleMovement k)) /\
  (cursors_right k || wasd_right k = false ->
   cursors_left k || wasd_left k = true -> fst (handleMovement k) < 0) /\
  (cursors_right k || wasd_right k = false ->
   cursors_left k || wasd_left k = false -> fst (handleMovement k) == 0) /\
  (cursors_down k || wasd_down k = true -> 0 < snd (handleMovement k)) /\
  (cursors_down k || wasd_down k = false ->
   cursors_up k || wasd_up k = true -> snd (handleMovement k) < 0) /\
  (cursors_down k || wasd_down k = false ->
   cursors_up k || wasd_up k = false -> snd (handleMovement k) == 0).
Proof.
  destruct k as [[] [] [] [] [] [] [] []]; cbn [cursors_left cursors_right
    cursors_up cursors_down wasd_left wasd_right wasd_up wasd_down orb];
    repeat split; intros; try discriminate; reflexivity.
Qed.

End MovementFacts.

(** ** Signal pulses *)

Section PulseFacts.

Import Pulses.

(** What every pulse satisfies between frames. *)
Lemma advance_keeps (dt : Q) (p : Pulse) :
  0 <= dt -> 0 <= speed (trace p) -> 0 <= t p < 1 ->
  trace (advance dt p) = trace p /\ 0 <= t (advance dt p) < 1.
Proof.
  intros Hdt Hsp Ht. split; [reflexivity|]. cbn [advance t].
  apply mod1_range.
  assert (0 <= speed (trace p) * dt) by (apply Qmult_le_0_compat; assumption).
  lra.
Qed.

Lemma frames_keep (dts : list Q) (ps : list Pulse) :
  Forall (fun dt => 0 <= dt) dts ->
  Forall (fun p => 0 <= speed (trace p) /\ 0 <= t p < 1) ps ->
  map trace (frames dts ps) = map trace ps /\
  Forall (fun p => 0 <= speed (trace p) /\ 0 <= t p < 1) (frames dts ps).
Proof.
  intros Hd. revert ps. induction Hd as [|dt dts Hdt _ IH]; intros ps Hps.
  - cbn. auto.
  - cbn [frames fold_left].
    assert (Hstep : map trace (updatePulses dt ps) = map trace ps /\
                    Forall (fun p => 0 <= speed (trace p) /\ 0 <= t p < 1)
                      (updatePulses dt ps)).
    { unfold updatePulses. induction Hps as [|p ps [Hsp Ht] _ IHps].
      - cbn. auto.
      - destruct IHps as [E F]. cbn [map]. rewrite E.
        destruct (advance_keeps dt p Hdt Hsp Ht) as [Etr Hrange].
        split; [rewrite Etr; reflexivity|].
        constructor; [rewrite Etr; auto | exact F]. }
    destruct Hstep as [E F]. destruct (IH _ F) as [E' F'].
    unfold frames in E', F'. rewrite E', E. auto.
Qed.

Lemma initPulses_ok :
  map trace initPulses = PULSE_TRACES /\
  Forall (fun p => 0 <= speed (trace p) /\ 0 <= t p < 1) initPulses.
Proof.
  split; [reflexivity|].
  repeat constructor; vm_compute; discriminate.
Qed.

(** Every signal pulse stays on its trace: after any number of frames with a
    non-negative elapsed time each pulse still belongs to its own trace, its
    phase is in [0, 1), and the point at which it is drawn lies between the
    two ends of the trace. *)
Theorem pulses_stay_on_their_traces (dts : list Q) :
  Forall (fun dt => 0 <= dt) dts ->
  map trace (frames dts initPulses) = PULSE_TRACES /\
  Forall (fun p =>
            0 <= t p < 1 /\
            between (x1 (trace p)) (x2 (trace p)) (fst (position p)) /\
            between (y1 (trace p)) (y2 (trace p)) (snd (position p)))
    (frames dts initPulses).
Proof.
  intros Hd. destruct initPulses_ok as [E0 F0].
  destruct (frames_keep dts initPulses Hd F0) as [E F].
  split; [rewrite E; exact E0|].
  eapply List.Forall_impl; [|exact F]. cbn beta. intros p [_ Ht].
  split; [exact Ht|]. cbn [position fst snd].
  split; apply between_lerp; lra.
Qed.

End PulseFacts.

(** ** World to screen and the per-frame placement *)

Section ScreenFacts.

Import Machine Screen.

Lemma worldToScreen_defined (v : View) (wx wy : Q) :
  ~ gameW v == 0 -> ~ gameH v == 0 ->
  worldToScreen v wx wy =
    Some (fst (match canvasRect v with Some r => r | None => containerRect v end)
          - fst (containerRect v)
          + (wx - worldViewX v) * (displayW v / gameW v),
          snd (match canvasRect v with Some r => r | None => containerRect v end)
          - snd (containerRect v)
          + (wy - worldViewY v) * (displayH v / gameH v)).
Proof.
  intros HW HH. unfold worldToScreen.
  rewrite (jsdiv_some _ _ HW), (jsdiv_some _ _ HH). reflexivity.
Qed.

(** The screen offset between two world points is their world offset times
    the display scale; the camera's position and the canvas's offset in its
    container cancel.  The corner of the camera's view maps to the corner of
    the canvas. *)
Theorem worldToScreen_is_a_scaling_of_offsets (v : View) (ax ay bx by' : Q) :
  ~ gameW v == 0 -> ~ gameH v == 0 ->
  exists a b c,
    worldToScreen v ax ay = Some a /\
    worldToScreen v bx by' = Some b /\
    worldToScreen v (worldViewX v) (worldViewY v) = Some c /\
    fst a - fst b == (ax - bx) * (displayW v / gameW v) /\
    snd a - snd b == (ay - by') * (displayH v / gameH v) /\
    fst c == fst (match canvasRect v with
                  | Some r => r | None => containerRect v end)
             - fst (containerRect v) /\
    snd c == snd (match canvasRect v with
                  | Some r => r | None => containerRect v end)
             - snd (containerRect v).
Proof.
  intros HW HH.
  eexists _, _, _.
  rewrite !(worldToScreen_defined v _ _ HW HH).
  split; [reflexivity|]. split; [reflexivity|]. split; [reflexivity|].
  cbn [fst snd]. repeat split; ring.
Qed.

(** On every frame on which the machine, run from its initial state, is not
    closed, [_updateCalloutPosition] does place the callout: the callout is
    not hidden and its station is found; and when the game area is at least
    the callout plus twice the padding, the origin it writes keeps the
    callout inside the padded game area. *)
Theorem open_callout_is_placed_inside_game_area
    (sectionMap : gmap string Section_) (stations : list StationDef)
    (es : list Event) (v : View) (player : Q * Q)
    (offsetWidth offsetHeight gaW gaH : Q) :
  ~ gameW v == 0 -> ~ gameH v == 0 ->
  istate (run sectionMap stations es init) <> Closed ->
  or_default offsetWidth 220 + 2 * Placement.CALLOUT_VIEWPORT_PAD <= gaW ->
  or_default offsetHeight 160 + 2 * Placement.CALLOUT_VIEWPORT_PAD <= gaH ->
  exists l t,
    updateCalloutPosition stations v player offsetWidth offsetHeight gaW gaH
      (run sectionMap stations es init) = PlacedAt l t /\
    Placement.CALLOUT_VIEWPORT_PAD <= l /\
    l + or_default offsetWidth 220 <= gaW - Placement.CALLOUT_VIEWPORT_PAD /\
    Placement.CALLOUT_VIEWPORT_PAD <= t /\
    t + or_default offsetHeight 160 <= gaH - Placement.CALLOUT_VIEWPORT_PAD.
Proof.
  intros HW HH Hopen Hw Hh.
  set (s := run sectionMap stations es init) in *.
  destruct (consistent_run sectionMap stations es init
              (consistent_init sectionMap stations))
    as (C1 & _ & _ & C4 & _).
  fold s in C1, C4.
  assert (Hflags : exists i, calloutStationId s = Some i /\
                             calloutOpen s = true /\ truthy_string i = true).
  { unfold istate in Hopen. destruct (calloutStationId s) as [i|];
      [|contradiction].
    exists i. destruct (calloutOpen s); cbn in Hopen; [|contradiction].
    destruct (truthy_string i); [auto | contradiction]. }
  destruct Hflags as (i & Hi & Ho & Htr).
  destruct (C4 i Hi) as [_ Hst].
  destruct (is_station_find stations i Hst) as (c & Hfind & _).
  assert (Hh' : callout_hidden (dom s) = false).
  { rewrite Ho in C1. destruct (callout_hidden (dom s)); [discriminate|reflexivity]. }
  unfold updateCalloutPosition. rewrite Ho, Hi. cbn [truthy_id negb orb].
  rewrite Htr, Hfind. cbn [negb orb].
  unfold positionCalloutWorld, playerScreen. rewrite Hh'.
  rewrite !(worldToScreen_defined v _ _ HW HH).
  unfold Placement.positionCallout. cbn [negb]. cbv zeta.
  eexists _, _. split; [reflexivity|].
  unfold Placement.clampedLeft, Placement.clampedTop.
  match goal with
  | |- _ <= Placement.clamp ?P ?a ?hi /\ _ =>
      pose proof (clamp_lower P a hi) as L1;
      assert (L2 : Placement.clamp P a hi <= hi) by (apply clamp_upper; lra)
  end.
  match goal with
  | |- _ /\ _ /\ _ <= Placement.clamp ?P ?a ?hi /\ _ =>
      pose proof (clamp_lower P a hi) as T1;
      assert (T2 : Placement.clamp P a hi <= hi) by (apply clamp_upper; lra)
  end.
  repeat split; lra.
Qed.

End ScreenFacts.

(** ** The sidebar's panel *)

Section PanelFacts.

Import Panel.

(** Two clicks on the sidebar toggle at the same window width restore the
    panel's classes; after each click [aria-expanded] tells whether the
    drawer is open (narrow window) or the sidebar not collapsed (wide
    window); and a station interaction or the callout's button leaves the
    drawer open on a narrow window and the sidebar expanded on a wide one. *)
Theorem sidebar_toggle_is_an_involution (w : Z) (p : Panel) :
  collapsed (toggle w (toggle w p)) = collapsed p /\
  drawer_open (toggle w (toggle w p)) = drawer_open p /\
  aria_expanded (toggle w p)
    = (if (w <=? 700)%Z then drawer_open (toggle w p)
       else negb (collapsed (toggle w p))) /\
  (if (w <=? 700)%Z then drawer_open (reveal w p) else negb (collapsed (reveal w p)))
    = true /\
  (if (w <=? 700)%Z then drawer_open (openInReadout w p)
   else negb (collapsed (openInReadout w p))) = true.
Proof.
  unfold toggle, reveal, openInReadout.
  destruct (w <=? 700)%Z eqn:E.
  - assert (E' : (700 <? w)%Z = false) by lia. rewrite E'.
    destruct p as [[] [] a x]; cbn; rewrite ?E; cbn; auto.
  - assert (E' : (700 <? w)%Z = true) by lia. rewrite E'.
    destruct p as [[] [] a x]; cbn; rewrite ?E; cbn; auto.
Qed.

End PanelFacts.

(** ** The further properties on concrete inputs *)

Section ExtraWitnesses.

Import Machine Placement Leader Screen Movement Pulses.

Local Abbreviation paladin :=
  (mkStation "experience-paladin" 600 340 0xFF9F1C "EXP.PALADIN").
Local Abbreviation go := (run sample_sectionMap STATIONS).
Local Abbreviation view0 := (mkView 800 600 800 600 (Some (10, 20)) (0, 0) 100 50).
Local Abbreviation rect0 := (mkRect 100 100 320 260).

Lemma reachable_callout_flags_agree_witness :
  callout_signal_lost (dom (go [Tick 600 340 16; Tick 600 158 16] init)) = true /\
  calloutOpen (go [Tick 600 340 16; Tick 600 158 16] init) = true.
Proof.
  assert (H : callout_signal_lost
                (dom (go [Tick 600 340 16; Tick 600 158 16] init)) = true)
    by (vm_compute; reflexivity).
  split; [exact H|].
  exact (proj2 (proj2 (reachable_callout_flags_agree sample_sectionMap STATIONS
                         [Tick 600 340 16; Tick 600 158 16])) H).
Defined.

Lemma open_callout_has_section_and_station_witness :
  calloutStationId (go [Tick 600 340 16] init) = Some "experience-paladin" /\
  (exists sec, sample_sectionMap !! "experience-paladin" = Some sec).
Proof.
  assert (H : calloutStationId (go [Tick 600 340 16] init)
              = Some "experience-paladin") by (vm_compute; reflexivity).
  split; [exact H|].
  exact (proj1 (open_callout_has_section_and_station sample_sectionMap STATIONS
                  [Tick 600 340 16] "experience-paladin" H)).
Defined.

Lemma leader_pulse_phase_stays_in_unit_interval_witness :
  Forall nonneg_dt [Tick 600 340 16; Close; TimerElapsed] /\
  0 <= leaderPulseT (go [Tick 600 340 16; Close; TimerElapsed] init) < 1.
Proof.
  assert (H : Forall nonneg_dt [Tick 600 340 16; Close; TimerElapsed]).
  { repeat constructor. vm_compute. discriminate. }
  split; [exact H|].
  exact (leader_pulse_phase_stays_in_unit_interval sample_sectionMap STATIONS
           [Tick 600 340 16; Close; TimerElapsed] H).
Defined.

Lemma entering_frame_opens_callout_witness :
  nearest STATIONS 600 340 = Some paladin /\
  lastAutoOpenedId init <> Some (id paladin) /\
  sample_sectionMap !! id paladin = Some (sample_section "experience-paladin") /\
  find (fun c' => same_id (id c') (Some (id paladin))) STATIONS = Some paladin /\
  truthy_string (id paladin) = true /\
  istate (update sample_sectionMap STATIONS 600 340 16 init) = Open (id paladin).
Proof.
  assert (H1 : nearest STATIONS 600 340 = Some paladin)
    by (vm_compute; reflexivity).
  assert (H2 : lastAutoOpenedId init <> Some (id paladin))
    by (vm_compute; discriminate).
  assert (H3 : sample_sectionMap !! id paladin
               = Some (sample_section "experience-paladin"))
    by (vm_compute; reflexivity).
  assert (H4 : find (fun c' => same_id (id c') (Some (id paladin))) STATIONS
               = Some paladin) by (vm_compute; reflexivity).
  assert (H5 : truthy_string (id paladin) = true) by reflexivity.
  split; [exact H1|]. split; [exact H2|]. split; [exact H3|].
  split; [exact H4|]. split; [exact H5|].
  exact (proj1 (entering_frame_opens_callout sample_sectionMap STATIONS init
                  paladin (sample_section "experience-paladin") 600 340 16
                  H1 H2 H3 H4 H5)).
Defined.

Lemma signal_loss_schedules_one_close_witness :
  find (fun c' => same_id (id c') (Some "experience-paladin")) STATIONS
    = Some paladin /\
  sq SIGNAL_LOST_R < dist2 600 158 paladin /\
  nearest STATIONS 600 158 = None /\
  istate (go [Tick 600 340 16] init) = Open "experience-paladin" /\
  timers (update sample_sectionMap STATIONS 600 158 16
            (go [Tick 600 340 16] init))
    = timers (go [Tick 600 340 16] init) ++ ["experience-paladin"].
Proof.
  assert (H1 : find (fun c' => same_id (id c') (Some "experience-paladin"))
                 STATIONS = Some paladin) by (vm_compute; reflexivity).
  assert (H2 : sq SIGNAL_LOST_R < dist2 600 158 paladin)
    by (vm_compute; reflexivity).
  assert (H3 : nearest STATIONS 600 158 = None) by (vm_compute; reflexivity).
  assert (H4 : istate (go [Tick 600 340 16] init) = Open "experience-paladin")
    by (vm_compute; reflexivity).
  split; [exact H1|]. split; [exact H2|]. split; [exact H3|].
  split; [exact H4|].
  exact (proj2 (proj2 (proj1 (signal_loss_schedules_one_close
           sample_sectionMap STATIONS (go [Tick 600 340 16] init) paladin
           "experience-paladin" 600 158 16 H1 H2 H3) H4))).
Defined.

Lemma signal_loss_then_timer_closes_witness :
  istate (go [Tick 600 340 16] init) = Open "experience-paladin" /\
  timers (go [Tick 600 340 16] init) = [] /\
  find (fun c' => same_id (id c') (Some "experience-paladin")) STATIONS
    = Some paladin /\
  sq SIGNAL_LOST_R < dist2 600 158 paladin /\
  nearest STATIONS 600 158 = None /\
  istate (run sample_sectionMap STATIONS [Tick 600 158 16; TimerElapsed]
            (go [Tick 600 340 16] init)) = Closed.
Proof.
  assert (H0 : istate (go [Tick 600 340 16] init) = Open "experience-paladin")
    by (vm_compute; reflexivity).
  assert (H1 : timers (go [Tick 600 340 16] init) = [])
    by (vm_compute; reflexivity).
  assert (H2 : find (fun c' => same_id (id c') (Some "experience-paladin"))
                 STATIONS = Some paladin) by (vm_compute; reflexivity).
  assert (H3 : sq SIGNAL_LOST_R < dist2 600 158 paladin)
    by (vm_compute; reflexivity).
  assert (H4 : nearest STATIONS 600 158 = None) by (vm_compute; reflexivity).
  split; [exact H0|]. split; [exact H1|]. split; [exact H2|].
  split; [exact H3|]. split; [exact H4|].
  exact (proj1 (signal_loss_then_timer_closes sample_sectionMap STATIONS
                  (go [Tick 600 340 16] init) paladin "experience-paladin"
                  600 158 16 H0 H1 H2 H3 H4)).
Defined.

Lemma fitting_candidate_is_placed_unclamped_witness :
  fits 36 12 10 10 220 160 400 300 <> [] /\
  clampedLeft 36 12 10 10 300 300 220 160 400 300
    == left (best 36 12 10 10 300 300 220 160 400 300).
Proof.
  assert (H : fits 36 12 10 10 220 160 400 300 <> [])
    by (vm_compute; discriminate).
  split; [exact H|].
  exact (proj1 (proj2 (proj2 (fitting_candidate_is_placed_unclamped
                  36 12 10 10 300 300 220 160 400 300 H)))).
Defined.

Lemma fitting_callout_keeps_offset_from_station_witness :
  fits 36 12 10 10 220 160 400 300 <> [] /\ 0 < 36 /\
  ~ (clampedLeft 36 12 10 10 300 300 220 160 400 300 <= 10
     <= clampedLeft 36 12 10 10 300 300 220 160 400 300 + 220).
Proof.
  assert (H : fits 36 12 10 10 220 160 400 300 <> [])
    by (vm_compute; discriminate).
  assert (H0 : 0 < 36) by reflexivity.
  split; [exact H|]. split; [exact H0|].
  exact (proj1 (proj2 (proj2 (fitting_callout_keeps_offset_from_station
                  36 12 10 10 300 300 220 160 400 300 H)) H0)).
Defined.

Lemma all_fit_places_callout_away_from_player_witness :
  forallb (fitsb 12 220 160 1000 800) (candidates 36 400 300 220 160) = true /\
  0 <= 36 /\ 0 < 220 /\ 0 < 160 /\ 300 < 400 /\ 200 < 300 /\
  left (best 36 12 400 300 300 200 220 160 1000 800) == 400 + 36 /\
  top (best 36 12 400 300 300 200 220 160 1000 800) == 300 + 36.
Proof.
  assert (H1 : forallb (fitsb 12 220 160 1000 800)
                 (candidates 36 400 300 220 160) = true)
    by (vm_compute; reflexivity).
  assert (H2 : 0 <= 36) by (vm_compute; discriminate).
  assert (H3 : 0 < 220) by reflexivity.
  assert (H4 : 0 < 160) by reflexivity.
  assert (H5 : 300 < 400) by reflexivity.
  assert (H6 : 200 < 300) by reflexivity.
  destruct (all_fit_places_callout_away_from_player
              36 12 400 300 300 200 220 160 1000 800 H1 H2 H3 H4)
    as (A & _ & B & _).
  split; [exact H1|]. split; [exact H2|]. split; [exact H3|].
  split; [exact H4|]. split; [exact H5|]. split; [exact H6|].
  split; [exact (A H5) | exact (B H6)].
Defined.

Lemma exit_point_on_border_witness :
  cLeft rect0 < cRight rect0 /\ cTop rect0 < cBottom rect0 /\
  exists e, exit_point rect0 400 50 = Some e /\ on_border rect0 e.
Proof.
  assert (H1 : cLeft rect0 < cRight rect0) by reflexivity.
  assert (H2 : cTop rect0 < cBottom rect0) by reflexivity.
  split; [exact H1|]. split; [exact H2|].
  exact (exit_point_on_border rect0 400 50 H1 H2).
Defined.

Lemma pulse_dot_lies_on_polyline_witness :
  0 <= 1 # 2 <= 1 /\
  exists x y,
    pulse_dot 320 180 400 50 (1 # 2) = Some (x, y) /\
    ((y == 180 /\ between 320 (midX 320 400) x) \/
     (x == midX 320 400 /\ between 180 50 y) \/
     (y == 50 /\ between (midX 320 400) 400 x)).
Proof.
  assert (H : 0 <= 1 # 2 <= 1)
    by (split; vm_compute; discriminate).
  split; [exact H|].
  exact (pulse_dot_lies_on_polyline 320 180 400 50 (1 # 2) H).
Defined.

Lemma pulses_stay_on_their_traces_witness :
  Forall (fun dt => 0 <= dt) [16; 17] /\
  map trace (frames [16; 17] initPulses) = PULSE_TRACES.
Proof.
  assert (H : Forall (fun dt => 0 <= dt) [16; 17])
    by (repeat constructor; vm_compute; discriminate).
  split; [exact H|].
  exact (proj1 (pulses_stay_on_their_traces [16; 17] H)).
Defined.

Lemma opposite_keys_right_and_down_win_witness :
  cursors_right (mkKeys true true false false false false false false)
  || wasd_right (mkKeys true true false false false false false false) = true /\
  0 < fst (handleMovement (mkKeys true true false false false false false false)).
Proof.
  assert (H : cursors_right (mkKeys true true false false false false false false)
              || wasd_right (mkKeys true true false false false false false false)
              = true) by reflexivity.
  split; [exact H|].
  exact (proj1 (opposite_keys_right_and_down_win
                  (mkKeys true true false false false false false false)) H).
Defined.

Lemma worldToScreen_is_a_scaling_of_offsets_witness :
  ~ gameW view0 == 0 /\ ~ gameH view0 == 0 /\
  exists a b c,
    worldToScreen view0 600 340 = Some a /\
    worldToScreen view0 200 440 = Some b /\
    worldToScreen view0 (worldViewX view0) (worldViewY view0) = Some c /\
    fst a - fst b == (600 - 200) * (displayW view0 / gameW view0) /\
    snd a - snd b == (340 - 440) * (displayH view0 / gameH view0) /\
    fst c == fst (match canvasRect view0 with
                  | Some r => r | None => containerRect view0 end)
             - fst (containerRect view0) /\
    snd c == snd (match canvasRect view0 with
                  | Some r => r | None => containerRect view0 end)
             - snd (containerRect view0).
Proof.
  assert (H1 : ~ gameW view0 == 0) by (vm_compute; discriminate).
  assert (H2 : ~ gameH view0 == 0) by (vm_compute; discriminate).
  split; [exact H1|]. split; [exact H2|].
  exact (worldToScreen_is_a_scaling_of_offsets view0 600 340 200 440 H1 H2).
Defined.

Lemma open_callout_is_placed_inside_game_area_witness :
  ~ gameW view0 == 0 /\ ~ gameH view0 == 0 /\
  istate (go [Tick 600 340 16] init) <> Closed /\
  or_default 220 220 + 2 * CALLOUT_VIEWPORT_PAD <= 800 /\
  or_default 160 160 + 2 * CALLOUT_VIEWPORT_PAD <= 600 /\
  exists l t,
    updateCalloutPosition STATIONS view0 (600, 340) 220 160 800 600
      (go [Tick 600 340 16] init) = PlacedAt l t /\
    CALLOUT_VIEWPORT_PAD <= l /\
    l + or_default 220 220 <= 800 - CALLOUT_VIEWPORT_PAD /\
    CALLOUT_VIEWPORT_PAD <= t /\
    t + or_default 160 160 <= 600 - CALLOUT_VIEWPORT_PAD.
Proof.
  assert (H1 : ~ gameW view0 == 0) by (vm_compute; discriminate).
  assert (H2 : ~ gameH view0 == 0) by (vm_compute; discriminate).
  assert (H3 : istate (go [Tick 600 340 16] init) <> Closed)
    by (vm_compute; discriminate).
  assert (H4 : or_default 220 220 + 2 * CALLOUT_VIEWPORT_PAD <= 800)
    by (vm_compute; discriminate).
  assert (H5 : or_default 160 160 + 2 * CALLOUT_VIEWPORT_PAD <= 600)
    by (vm_compute; discriminate).
  split; [exact H1|]. split; [exact H2|]. split; [exact H3|].
  split; [exact H4|]. split; [exact H5|].
  exact (open_callout_is_placed_inside_game_area sample_sectionMap STATIONS
           [Tick 600 340 16] view0 (600, 340) 220 160 800 600
           H1 H2 H3 H4 H5).
Defined.

End ExtraWitnesses.

Section ExtraWitnessesMore.

Import Machine Leader.

Local Abbreviation go := (run sample_sectionMap STATIONS).
Local Abbreviation rect0 := (mkRect 100 100 320 260).

Lemma leader_line_joins_border_to_station_witness :
  cLeft rect0 < cRight rect0 /\ cTop rect0 < cBottom rect0 /\
  0 <= 1 # 2 <= 1 /\
  exists ex ey x y,
    drawLeaderLine false rect0 400 50 (1 # 2)
      = Line (polyline ex ey 400 50) (x, y) /\
    on_border rect0 (ex, ey).
Proof.
  assert (H1 : cLeft rect0 < cRight rect0) by reflexivity.
  assert (H2 : cTop rect0 < cBottom rect0) by reflexivity.
  assert (H3 : 0 <= 1 # 2 <= 1) by (split; vm_compute; discriminate).
  split; [exact H1|]. split; [exact H2|]. split; [exact H3|].
  destruct (leader_line_joins_border_to_station rect0 400 50 (1 # 2) H1 H2 H3)
    as (ex & ey & x & y & E & B & _).
  exists ex, ey, x, y. split; [exact E | exact B].
Defined.

Lemma leader_line_shown_only_with_open_callout_witness :
  istate (go ([Tick 600 80 16] ++ [Tick 600 340 16]) init) <> Closed /\
  leader_svg (dom (go ([Tick 600 80 16] ++ [Tick 600 340 16]) init)) = true.
Proof.
  assert (H : istate (go ([Tick 600 80 16] ++ [Tick 600 340 16]) init) <> Closed)
    by (vm_compute; discriminate).
  split; [exact H|].
  exact (proj2 (leader_line_shown_only_with_open_callout
                  sample_sectionMap STATIONS [Tick 600 80 16] 600 340 16) H).
Defined.

End ExtraWitnessesMore.
